(** * Session orchestration of the chat widget: a shallow embedding

    The development follows [src/components/Chat/ChatContainer.js] (the
    React component [ChatContainer]) and the [ChatInterface] bridge with its
    [message] listener.  JavaScript values are a small tagged union, the two
    browser stores are finite maps from keys to texts, and every method is a
    function in a monad that threads the system state, may throw, and
    records the observable actions it performs, in order. *)

From Stdlib Require Import String Ascii ZArith List Bool.
From stdpp Require Import base option list strings pretty gmap.
Import ListNotations.
Local Open Scope string_scope.
Local Open Scope list_scope.

(** ** JavaScript values *)

(** A number is kept as a decimal [m * 10^e]; rounding to doubles is not
    modelled.  An object is the list of its own enumerable properties in
    insertion order. *)
#[warnings="-register-all"]
Inductive jsval : Type :=
| JUndefined
| JNull
| JBool (b : bool)
| JNum (m e : Z)
| JStr (s : string)
| JArr (xs : list jsval)
| JObj (fields : list (string * jsval)).

(** What a [throw] carries: the two built-in errors the code can raise, or
    the opaque reason of a rejected promise of a collaborator. *)
Inductive jserror : Type :=
| TypeError (msg : string)
| SyntaxError (text : string)
| Reason (v : jsval).

Inductive Outcome (A : Type) : Type :=
| Ok (a : A)
| Throw (e : jserror).
Arguments Ok {A} a.
Arguments Throw {A} e.

(** ToBoolean. *)
Definition truthy (v : jsval) : bool :=
  match v with
  | JUndefined | JNull => false
  | JBool b => b
  | JNum m _ => negb (m =? 0)%Z
  | JStr s => negb (String.eqb s "")
  | JArr _ | JObj _ => true
  end.

Fixpoint obj_get (fields : list (string * jsval)) (k : string) : option jsval :=
  match fields with
  | [] => None
  | (k', v) :: rest => if String.eqb k' k then Some v else obj_get rest k
  end.

(** [o[k] = v]: an existing property keeps its place, a new one goes last
    (the place JavaScript gives to integer keys is not modelled). *)
Fixpoint obj_set (fields : list (string * jsval)) (k : string) (v : jsval)
  : list (string * jsval) :=
  match fields with
  | [] => [(k, v)]
  | (k', v') :: rest =>
      if String.eqb k' k then (k', v) :: rest else (k', v') :: obj_set rest k v
  end.

(** [v.k]: reading a property of [undefined] or [null] throws; the names the
    code reads are neither indices nor inherited properties, so every value
    that is not an object answers [undefined]. *)
Definition get_prop (v : jsval) (k : string) : Outcome jsval :=
  match v with
  | JUndefined => Throw (TypeError "Cannot read properties of undefined")
  | JNull => Throw (TypeError "Cannot read properties of null")
  | JObj fields => Ok (default JUndefined (obj_get fields k))
  | _ => Ok JUndefined
  end.

(** [a || b] on values already computed. *)
Definition js_or (a b : jsval) : jsval := if truthy a then a else b.

(** The own enumerable properties [Object.assign] and spread copy from a
    source: those of an object, the indexed elements of an array and the
    indexed characters of a string; nothing for the other primitives. *)
Definition index_key (i : nat) : string := pretty i.

Definition own_props (v : jsval) : list (string * jsval) :=
  match v with
  | JObj fields => fields
  | JArr xs => imap (fun i x => (index_key i, x)) xs
  | JStr s =>
      imap (fun i c => (index_key i, JStr (String c EmptyString)))
           (list_ascii_of_string s)
  | _ => []
  end.

(** [{...a, ...b}]: every own property of a source is defined on the new
    object, one named [__proto__] like any other. *)
Definition spread_props (target : list (string * jsval)) (source : jsval)
  : list (string * jsval) :=
  fold_left (fun acc kv => obj_set acc (fst kv) (snd kv)) (own_props source) target.

Definition spread (sources : list jsval) : jsval :=
  JObj (fold_left spread_props sources []).

(** [Object.assign({}, a, b)] stores each property with an ordinary
    assignment [target[k] = v].  On a plain object the assignment of
    [__proto__] goes to the setter inherited from [Object.prototype]: it
    replaces the prototype of the target (or does nothing) and creates no
    property.  Prototypes are not part of the values here, so what the
    result then inherits is not modelled: statements that read a merged
    object assume a source without such a property. *)
Definition assign_props (target : list (string * jsval)) (source : jsval)
  : list (string * jsval) :=
  fold_left (fun acc kv =>
               if String.eqb (fst kv) "__proto__" then acc
               else obj_set acc (fst kv) (snd kv))
            (own_props source) target.

Definition Object_assign (sources : list jsval) : jsval :=
  JObj (fold_left assign_props sources []).

(** The property name a value stands for in [o[v]], where it is a fixed
    text: a string is its own name, an array the names of its elements
    joined by commas ([null] and [undefined] elements giving the empty
    name), an object without a [toString] of its own the text
    [[object Object]].  The text of a number is not modelled. *)
Fixpoint property_name (v : jsval) : option string :=
  match v with
  | JUndefined => Some "undefined"
  | JNull => Some "null"
  | JBool b => Some (if b then "true" else "false")
  | JNum _ _ => None
  | JStr s => Some s
  | JObj _ => Some "[object Object]"
  | JArr xs =>
      let element (x : jsval) : option string :=
        match x with
        | JUndefined | JNull => Some ""
        | _ => property_name x
        end in
      (fix join (ys : list jsval) : option string :=
         match ys with
         | [] => Some ""
         | [y] => element y
         | y :: rest =>
             match element y, join rest with
             | Some a, Some b => Some (String.append a (String.append "," b))
             | _, _ => None
             end
         end) xs
  end.

(** [s.split(",")]. *)
Fixpoint split_on (sep : ascii) (s : string) : list string :=
  match s with
  | EmptyString => [EmptyString]
  | String c rest =>
      if Ascii.eqb c sep then EmptyString :: split_on sep rest
      else match split_on sep rest with
           | [] => [String c EmptyString]
           | w :: ws => String c w :: ws
           end
  end.

Definition includes (x : string) (xs : list string) : bool :=
  existsb (String.eqb x) xs.

(** ** The component and its surroundings *)

Inductive Status : Type := NotInitiated | Initiating | Initiated | InitiateFailed.

(** The string literal the component stores for each status. *)
Definition status_name (st : Status) : string :=
  match st with
  | NotInitiated => "NotInitiated"
  | Initiating => "Initiating"
  | Initiated => "Initiated"
  | InitiateFailed => "InitiateFailed"
  end.

(** A [ChatSession] instance is known by the arguments of its constructor. *)
Record ChatSession : Type := {
  cs_chatDetails : jsval;
  cs_displayName : jsval;
  cs_region : jsval;
  cs_stage : jsval;
  cs_customizationParams : jsval
}.

(** [this.state]. *)
Record ComponentState : Type := {
  chatSession : option ChatSession;
  composerConfig : jsval;
  status : Status;
  language : jsval
}.

(** The state the constructor installs. *)
Definition initial_state : ComponentState :=
  {| chatSession := None; composerConfig := JObj [];
     status := NotInitiated; language := JStr "en_US" |}.

(** The argument of [setState]: the properties present are overwritten. *)
Record StatePatch : Type := {
  p_status : option Status;
  p_chatSession : option (option ChatSession);
  p_composerConfig : option jsval;
  p_language : option jsval
}.

Definition apply_patch (p : StatePatch) (st : ComponentState) : ComponentState :=
  {| chatSession := default (chatSession st) (p_chatSession p);
     composerConfig := default (composerConfig st) (p_composerConfig p);
     status := default (status st) (p_status p);
     language := default (language st) (p_language p) |}.

Definition patch_status (st : Status) : StatePatch :=
  {| p_status := Some st; p_chatSession := None;
     p_composerConfig := None; p_language := None |}.

Inductive StoreId : Type := Local | Session.
Inductive LogLevel : Type := Info | Error.

(** A continuation handed in by the host is known by its name. *)
Definition Callback : Type := string.

Inductive CbArg : Type :=
| ArgSession (cs : ChatSession)
| ArgError (e : jserror).

(** An [async] method that reaches an [await] hands its promise to its
    caller and stops; the rest of it runs when the awaited promise settles.
    The three awaits of the component (lines 90, 164 and 169), each with
    the values the rest of the method holds. *)
Inductive Pending : Type :=
| AwaitRehydrationOpen (parsedData : jsval) (chatSession : ChatSession)
| AwaitInitiator (input customizationParams : jsval) (success failure : option Callback)
| AwaitInitiationOpen (input customizationParams chatDetails : jsval)
    (chatSession : ChatSession) (success failure : option Callback).

(** The observable actions, in the order the code performs them. *)
Inductive Event : Type :=
| EvSetState (p : StatePatch)
| EvLog (lvl : LogLevel) (msg : string)
| EvRemoveItem (st : StoreId) (k : string)
| EvSetItem (st : StoreId) (k v : string)
| EvInitiateChat (input : jsval) (r : Outcome jsval)
| EvNewChatSession (cs : ChatSession)
| EvOnChatClose (cs : ChatSession)
| EvOpenChatSession (cs : ChatSession) (r : Outcome unit)
| EvSetCurrentChatSessionInstance (cs : ChatSession)
| EvInvoke (cb : Callback) (arg : CbArg)
| EvTrigger (name : string) (payload : jsval) (success failure : option Callback).

(** What [window[key]] can be for the code: one of the two stores, a falsy
    value (the property does not exist), or some other truthy value, which
    has neither [getItem] nor [setItem]. *)
Inductive WindowValue : Type := WLocalStorage | WSessionStorage | WFalsy | WObject.

(** Everything the code consumes without defining it: the JSON built-ins,
    the globals of the page, the two constants imported from
    [./constants] and [./datamodel/Model], the settled result of the Session
    Initiator's promise and of a session's [openChatSession()] promise, and
    how a host continuation returns (it is taken to touch neither the stores
    nor the component).  The methods named as in the source follow an
    [async] method from its call to its end, as its awaiting caller sees
    it when nothing else happens between its awaits; the [_begin] and
    [_resume] parts cut the same method at its awaits. *)
Record Env : Type := {
  JSON_parse : string -> option jsval;
  JSON_stringify : jsval -> string;
  globals : jsval -> WindowValue;
  ATTACHMENTS : string;
  TEXT_MARKDOWN : string;
  initiateChat : jsval -> Outcome jsval;
  session_open : ChatSession -> Outcome unit;
  invoke : Callback -> CbArg -> Outcome unit
}.

(** The two stores, [this.logger] (defined or not) and [this.state]. *)
Record Sys : Type := {
  localStorage : gmap string string;
  sessionStorage : gmap string string;
  logger : bool;
  state : ComponentState
}.

Definition store (st : StoreId) (s : Sys) : gmap string string :=
  match st with Local => localStorage s | Session => sessionStorage s end.

Definition update_store (st : StoreId) (f : gmap string string -> gmap string string)
  (s : Sys) : Sys :=
  match st with
  | Local => {| localStorage := f (localStorage s); sessionStorage := sessionStorage s;
                logger := logger s; state := state s |}
  | Session => {| localStorage := localStorage s; sessionStorage := f (sessionStorage s);
                  logger := logger s; state := state s |}
  end.

Definition update_state (f : ComponentState -> ComponentState) (s : Sys) : Sys :=
  {| localStorage := localStorage s; sessionStorage := sessionStorage s;
     logger := logger s; state := f (state s) |}.

(** ** The monad of methods *)

Definition M (A : Type) : Type := Sys -> Outcome A * Sys * list Event.

Definition ret {A} (a : A) : M A := fun s => (Ok a, s, []).
Definition throw {A} (e : jserror) : M A := fun s => (Throw e, s, []).
Definition lift {A} (o : Outcome A) : M A := fun s => (o, s, []).
Definition emit (ev : Event) : M unit := fun s => (Ok tt, s, [ev]).

Definition bind {A B} (m : M A) (k : A -> M B) : M B :=
  fun s =>
    match m s with
    | (Ok a, s1, t1) => let '(r, s2, t2) := k a s1 in (r, s2, t1 ++ t2)
    | (Throw e, s1, t1) => (Throw e, s1, t1)
    end.

(** [try { body } catch (e) { handler e }]. *)
Definition try_catch {A} (body : M A) (handler : jserror -> M A) : M A :=
  fun s =>
    match body s with
    | (Ok a, s1, t1) => (Ok a, s1, t1)
    | (Throw e, s1, t1) => let '(r, s2, t2) := handler e s1 in (r, s2, t1 ++ t2)
    end.

(** Calling an [async] method without awaiting it.  [m] is the method up to
    its first [await] (or to its end, when it reaches none): the call
    returns there, with what the method has left pending, and a rejection
    stays in the dropped promise. *)
Definition not_awaited (m : M (option Pending)) : M (option Pending) :=
  fun s =>
    let '(r, s1, t1) := m s in
    (Ok (match r with Ok pending => pending | Throw _ => None end), s1, t1).

Declare Scope js_scope.
Delimit Scope js_scope with js.
Notation "x <- m ;; k" := (bind m (fun x => k))
  (at level 20, m at level 99, k at level 200, only parsing) : js_scope.
Notation "m ;; k" := (bind m (fun _ => k))
  (at level 100, k at level 200, only parsing, right associativity) : js_scope.
Local Open Scope js_scope.

Definition storage_key : string := "chatSessionData".

(** The three methods of a store the code calls; a store that refuses a
    write (quota) or an access is not modelled. *)
Definition getItem (st : StoreId) (k : string) : M (option string) :=
  fun s => (Ok (store st s !! k), s, []).

Definition removeItem (st : StoreId) (k : string) : M unit :=
  fun s => (Ok tt, update_store st (delete k) s, [EvRemoveItem st k]).

Definition setItem (st : StoreId) (k v : string) : M unit :=
  fun s => (Ok tt, update_store st (insert k v) s, [EvSetItem st k v]).

(** [this.setState(p)], applied at once. *)
Definition setState (p : StatePatch) : M unit :=
  fun s => (Ok tt, update_state (apply_patch p) s, [EvSetState p]).

(** [this.logger.info(..)] / [this.logger.error(..)]: a [TypeError] when the
    constructor found no [LogManager]. *)
Definition logger_call (lvl : LogLevel) (msg : string) : M unit :=
  fun s =>
    if logger s then (Ok tt, s, [EvLog lvl msg])
    else (Throw (TypeError "Cannot read properties of undefined"), s, []).

(** [this.logger && this.logger.info(..)]. *)
Definition logger_guarded (lvl : LogLevel) (msg : string) : M unit :=
  fun s => if logger s then (Ok tt, s, [EvLog lvl msg]) else (Ok tt, s, []).

(** [cb && cb(arg)]. *)
Definition call_if_set (env : Env) (cb : option Callback) (arg : CbArg) : M unit :=
  match cb with
  | Some f => emit (EvInvoke f arg) ;; lift (invoke env f arg)
  | None => ret tt
  end.

(** ** ChatContainer.js *)

Section ChatContainer.
Context (env : Env).

(** [window[key]]: the two store names are fixed, [window.undefined] is
    [undefined]; every other key (after its conversion to a property name)
    is a global of the page. *)
Definition window_get (key : jsval) : WindowValue :=
  match key with
  | JStr s =>
      if String.eqb s "localStorage" then WLocalStorage
      else if String.eqb s "sessionStorage" then WSessionStorage
      else globals env key
  | JUndefined => WFalsy
  | _ => globals env key
  end.

(** [o.featurePermissions && o.featurePermissions[CHAT_FEATURE_TYPES.ATTACHMENTS]]. *)
Definition feature_flag (o : jsval) : Outcome jsval :=
  match get_prop o "featurePermissions" with
  | Ok fp => if truthy fp then get_prop fp (ATTACHMENTS env) else Ok fp
  | Throw e => Throw e
  end.

(** The [attachmentsEnabled] expression of lines 174-176 and 214-215. *)
Definition attachmentsEnabled (input chatDetails : jsval) : Outcome jsval :=
  match feature_flag input with
  | Ok a => if truthy a then Ok a else feature_flag chatDetails
  | Throw e => Throw e
  end.

(** The [richMessagingEnabled] expression of lines 177 and 216. *)
Definition richMessagingEnabled (input : jsval) : Outcome jsval :=
  match get_prop input "supportedMessagingContentTypes" with
  | Ok (JStr s) => Ok (JBool (includes (TEXT_MARKDOWN env) (split_on "," s)))
  | Ok _ => Ok (JBool false)
  | Throw e => Throw e
  end.

(** Lines 226-248. *)
Definition openChatSession (chatDetails name region stage customizationParams : jsval)
  : M ChatSession :=
  startChatResult <- lift (get_prop chatDetails "startChatResult") ;;
  let finalChatDetails :=
    if truthy startChatResult then chatDetails
    else JObj [("startChatResult", chatDetails)] in
  let chatSession :=
    {| cs_chatDetails := finalChatDetails; cs_displayName := name;
       cs_region := region; cs_stage := stage;
       cs_customizationParams := customizationParams |} in
  emit (EvNewChatSession chatSession) ;;
  emit (EvOnChatClose chatSession) ;;
  emit (EvOpenChatSession chatSession (session_open env chatSession)) ;;
  lift (session_open env chatSession) ;;
  ret chatSession.

(** Lines 226-245, the part of [openChatSession] that runs in the caller:
    the session is constructed and its [openChatSession()] is called; what
    comes back is the promise of that call, not yet settled. *)
Definition openChatSession_call (chatDetails name region stage customizationParams : jsval)
  : M ChatSession :=
  startChatResult <- lift (get_prop chatDetails "startChatResult") ;;
  let finalChatDetails :=
    if truthy startChatResult then chatDetails
    else JObj [("startChatResult", chatDetails)] in
  let chatSession :=
    {| cs_chatDetails := finalChatDetails; cs_displayName := name;
       cs_region := region; cs_stage := stage;
       cs_customizationParams := customizationParams |} in
  emit (EvNewChatSession chatSession) ;;
  emit (EvOnChatClose chatSession) ;;
  emit (EvOpenChatSession chatSession (session_open env chatSession)) ;;
  ret chatSession.

(** [localStorage.getItem(k) || sessionStorage.getItem(k) || null], line 79:
    an empty text is falsy and counts as no text. *)
Definition nonempty (o : option string) : option string :=
  match o with
  | Some t => if String.eqb t "" then None else Some t
  | None => None
  end.

Definition read_chatSessionData (s : Sys) : option string :=
  match nonempty (localStorage s !! storage_key) with
  | Some t => Some t
  | None => nonempty (sessionStorage s !! storage_key)
  end.

(** The condition of line 86, on a value already read from [parsedData]. *)
Definition rehydratable (chatDetails : jsval) : Outcome bool :=
  if truthy chatDetails then
    match get_prop chatDetails "startChatResult" with
    | Ok scr =>
        if truthy scr then
          match get_prop scr "ContactId" with
          | Ok cid =>
              if truthy cid then
                match get_prop scr "ParticipantId" with
                | Ok pid => Ok (truthy pid)
                | Throw e => Throw e
                end
              else Ok false
          | Throw e => Throw e
          end
        else Ok false
    | Throw e => Throw e
    end
  else Ok false.

(** The body of the [try] of lines 83-105; the result says whether the
    method returned from inside it (line 104). *)
Definition rehydrate_body (text : string) : M bool :=
  parsedData <- match JSON_parse env text with
                | Some v => ret v
                | None => throw (SyntaxError text)
                end ;;
  chatDetails <- lift (get_prop parsedData "chatDetails") ;;
  ok <- lift (rehydratable chatDetails) ;;
  if (ok : bool) then
    logger_call Info "Found existing chat session based on persistence key. Rehydrating... V5" ;;
    logger_call Info "Data being passed to openChatSession from checkAndRehydrateChat:" ;;
    displayName <- lift (get_prop parsedData "displayName") ;;
    region <- lift (get_prop parsedData "region") ;;
    stage <- lift (get_prop parsedData "stage") ;;
    customizationParams <- lift (get_prop parsedData "customizationParams") ;;
    chatSession <- openChatSession chatDetails displayName region stage customizationParams ;;
    composerConfig <- lift (get_prop parsedData "composerConfig") ;;
    language <- lift (get_prop parsedData "language") ;;
    setState {| p_status := Some Initiated; p_chatSession := Some (Some chatSession);
                p_composerConfig := Some composerConfig; p_language := Some language |} ;;
    ret true
  else ret false.

(** The [catch] of lines 106-110. *)
Definition rehydrate_handler (error : jserror) : M bool :=
  logger_call Error "Failed to parse chat session data from persistence key. Starting new chat." ;;
  removeItem Local storage_key ;;
  removeItem Session storage_key ;;
  ret false.

(** Lines 78-114, from the call to the end.  The method is [async]: [Throw]
    is a rejected promise. *)
Definition checkAndRehydrateChat : M unit :=
  fun s =>
    (match read_chatSessionData s with
     | Some text =>
         returned <- try_catch (rehydrate_body text) rehydrate_handler ;;
         if (returned : bool) then ret tt else setState (patch_status NotInitiated)
     | None => setState (patch_status NotInitiated)
     end) s.

(** The [try] of lines 83-105 up to the [await] of line 90: the result is
    what the method waits for there, or nothing when the test of line 86
    fails. *)
Definition rehydrate_body_begin (text : string) : M (option Pending) :=
  parsedData <- match JSON_parse env text with
                | Some v => ret v
                | None => throw (SyntaxError text)
                end ;;
  chatDetails <- lift (get_prop parsedData "chatDetails") ;;
  ok <- lift (rehydratable chatDetails) ;;
  if (ok : bool) then
    logger_call Info "Found existing chat session based on persistence key. Rehydrating... V5" ;;
    logger_call Info "Data being passed to openChatSession from checkAndRehydrateChat:" ;;
    displayName <- lift (get_prop parsedData "displayName") ;;
    region <- lift (get_prop parsedData "region") ;;
    stage <- lift (get_prop parsedData "stage") ;;
    customizationParams <- lift (get_prop parsedData "customizationParams") ;;
    chatSession <- openChatSession_call chatDetails displayName region stage
                     customizationParams ;;
    ret (Some (AwaitRehydrationOpen parsedData chatSession))
  else ret None.

(** Lines 78-114 from the call to the [await] of line 90, or to the end of
    the method on the paths that reach no [await]. *)
Definition checkAndRehydrateChat_begin : M (option Pending) :=
  fun s =>
    (match read_chatSessionData s with
     | Some text =>
         pending <- try_catch (rehydrate_body_begin text)
                      (fun error => rehydrate_handler error ;; ret None) ;;
         match pending with
         | Some p => ret (Some p)
         | None => setState (patch_status NotInitiated) ;; ret None
         end
     | None => setState (patch_status NotInitiated) ;; ret None
     end) s.

(** Lines 90-114 once the promise awaited at line 90 has settled. *)
Definition checkAndRehydrateChat_resume (parsedData : jsval) (chatSession : ChatSession)
  : M unit :=
  returned <-
    try_catch
      (lift (session_open env chatSession) ;;
       composerConfig <- lift (get_prop parsedData "composerConfig") ;;
       language <- lift (get_prop parsedData "language") ;;
       setState {| p_status := Some Initiated; p_chatSession := Some (Some chatSession);
                   p_composerConfig := Some composerConfig;
                   p_language := Some language |} ;;
       ret true)
      rehydrate_handler ;;
  if (returned : bool) then ret tt else setState (patch_status NotInitiated).

(** Lines 119-124; [event.key] is the changed key.  The handler returns
    when [checkAndRehydrateChat] reaches its [await] or its end. *)
Definition onStorageChange (event : jsval) : M (option Pending) :=
  key <- lift (get_prop event "key") ;;
  match key with
  | JStr k =>
      if String.eqb k storage_key then
        logger_call Info "Storage event detected. Checking for new chat session." ;;
        not_awaited checkAndRehydrateChat_begin
      else ret None
  | _ => ret None
  end.

(** Lines 63-68 (the listener registration has no effect on the model). *)
Definition componentDidMount : M (option Pending) :=
  not_awaited checkAndRehydrateChat_begin.

(** The object literal of lines 206-218. *)
Definition chatSessionData_of (input chatDetails customizationParams : jsval)
  : Outcome jsval :=
  match get_prop input "name", get_prop input "region", get_prop input "stage",
        get_prop input "language" with
  | Ok displayName, Ok region, Ok stage, Ok language =>
      match attachmentsEnabled input chatDetails with
      | Ok attachments =>
          match richMessagingEnabled input with
          | Ok richMessaging =>
              Ok (JObj [("chatDetails", chatDetails);
                        ("displayName", displayName);
                        ("region", region);
                        ("stage", stage);
                        ("customizationParams", customizationParams);
                        ("language", language);
                        ("composerConfig",
                          JObj [("attachmentsEnabled", attachments);
                                ("richMessagingEnabled", richMessaging)])])
          | Throw e => Throw e
          end
      | Throw e => Throw e
      end
  | Throw e, _, _, _ | _, Throw e, _, _ | _, _, Throw e, _ | _, _, _, Throw e => Throw e
  end.

(** Lines 199-224. *)
Definition saveChatSession (input chatDetails customizationParams : jsval) : M unit :=
  chatPersistence <- lift (get_prop input "chatPersistence") ;;
  let storage := window_get chatPersistence in
  removeItem Local storage_key ;;
  removeItem Session storage_key ;;
  match storage with
  | WFalsy =>
      removeItem Local storage_key ;;
      removeItem Session storage_key
  | _ =>
      chatSessionData <- lift (chatSessionData_of input chatDetails customizationParams) ;;
      match storage with
      | WLocalStorage => setItem Local storage_key (JSON_stringify env chatSessionData)
      | WSessionStorage => setItem Session storage_key (JSON_stringify env chatSessionData)
      | _ => throw (TypeError "storage.setItem is not a function")
      end
  end.

(** Lines 171-188: what follows the two awaited calls inside the [try]. *)
Definition finish_initiation (input chatDetails customizationParams : jsval)
  (chatSession : ChatSession) (success : option Callback) : M unit :=
  saveChatSession input chatDetails customizationParams ;;
  emit (EvSetCurrentChatSessionInstance chatSession) ;;
  attachments <- lift (attachmentsEnabled input chatDetails) ;;
  richMessaging <- lift (richMessagingEnabled input) ;;
  lang <- lift (get_prop input "language") ;;
  setState {| p_status := Some Initiated; p_chatSession := Some (Some chatSession);
              p_composerConfig :=
                Some (JObj [("attachmentsEnabled", attachments);
                            ("richMessagingEnabled", richMessaging)]);
              p_language := Some (js_or lang (JStr "en_US")) |} ;;
  call_if_set env success (ArgSession chatSession).

(** The [try] of lines 163-189. *)
Definition initiation_try (input customizationParams : jsval)
  (success : option Callback) : M unit :=
  emit (EvInitiateChat input (initiateChat env input)) ;;
  chatDetails <- lift (initiateChat env input) ;;
  logger_call Info "Data being passed to openChatSession from submitChatInitiation:" ;;
  name <- lift (get_prop input "name") ;;
  region <- lift (get_prop input "region") ;;
  stage <- lift (get_prop input "stage") ;;
  chatSession <- openChatSession chatDetails name region stage customizationParams ;;
  finish_initiation input chatDetails customizationParams chatSession success.

(** The [catch] of lines 189-192. *)
Definition initiation_catch (failure : option Callback) (error : jserror) : M unit :=
  setState (patch_status InitiateFailed) ;;
  call_if_set env failure (ArgError error).

(** Lines 157-193, from the call to the end.  The method is [async]: [Throw]
    is a rejected promise. *)
Definition submitChatInitiation (input : jsval) (success failure : option Callback)
  : M unit :=
  setState (patch_status Initiating) ;;
  redirectUri <- lift (get_prop input "authenticationRedirectUri") ;;
  identityProvider <- lift (get_prop input "authenticationIdentityProvider") ;;
  let customizationParams :=
    JObj [("authenticationRedirectUri", js_or redirectUri (JStr ""));
          ("authenticationIdentityProvider", js_or identityProvider (JStr ""))] in
  try_catch (initiation_try input customizationParams success)
            (initiation_catch failure).

(** Lines 157-164 from the call to the first [await]: the Session Initiator
    has been called and its promise is awaited. *)
Definition submitChatInitiation_begin (input : jsval) (success failure : option Callback)
  : M (option Pending) :=
  setState (patch_status Initiating) ;;
  redirectUri <- lift (get_prop input "authenticationRedirectUri") ;;
  identityProvider <- lift (get_prop input "authenticationIdentityProvider") ;;
  let customizationParams :=
    JObj [("authenticationRedirectUri", js_or redirectUri (JStr ""));
          ("authenticationIdentityProvider", js_or identityProvider (JStr ""))] in
  emit (EvInitiateChat input (initiateChat env input)) ;;
  ret (Some (AwaitInitiator input customizationParams success failure)).

(** Lines 164-169 once the Session Initiator's promise has settled, up to
    the second [await]; a rejection, or anything thrown on the way, goes to
    the [catch]. *)
Definition submitChatInitiation_resume_initiator (input customizationParams : jsval)
  (success failure : option Callback) : M (option Pending) :=
  try_catch
    (chatDetails <- lift (initiateChat env input) ;;
     logger_call Info "Data being passed to openChatSession from submitChatInitiation:" ;;
     name <- lift (get_prop input "name") ;;
     region <- lift (get_prop input "region") ;;
     stage <- lift (get_prop input "stage") ;;
     chatSession <- openChatSession_call chatDetails name region stage
                      customizationParams ;;
     ret (Some (AwaitInitiationOpen input customizationParams chatDetails chatSession
                  success failure)))
    (fun error => initiation_catch failure error ;; ret None).

(** Lines 169-193 once the promise of the open call has settled. *)
Definition submitChatInitiation_resume_open (input customizationParams chatDetails : jsval)
  (chatSession : ChatSession) (success failure : option Callback) : M unit :=
  try_catch
    (lift (session_open env chatSession) ;;
     finish_initiation input chatDetails customizationParams chatSession success)
    (initiation_catch failure).

(** The awaited promise settles and the method goes on, to its next
    [await] or to its end. *)
Definition resume (p : Pending) : M (option Pending) :=
  match p with
  | AwaitRehydrationOpen parsedData chatSession =>
      checkAndRehydrateChat_resume parsedData chatSession ;; ret None
  | AwaitInitiator input customizationParams success failure =>
      submitChatInitiation_resume_initiator input customizationParams success failure
  | AwaitInitiationOpen input customizationParams chatDetails chatSession success failure =>
      submitChatInitiation_resume_open input customizationParams chatDetails chatSession
        success failure ;;
      ret None
  end.

(** What is pending run to its end with nothing in between (no method waits
    more than twice). *)
Definition to_its_end (pending : option Pending) : M unit :=
  match pending with
  | None => ret tt
  | Some p =>
      next <- resume p ;;
      match next with
      | None => ret tt
      | Some p' => resume p' ;; ret tt
      end
  end.

(** Lines 126-138, the handler of the [initChat] event.  The [async] method
    it calls is not awaited: the handler returns when that method reaches
    its first [await]. *)
Definition initiateChatSession (chatDetails : jsval) (success failure : option Callback)
  : M (option Pending) :=
  lift (get_prop chatDetails "contactFlowId") ;;
  lift (get_prop chatDetails "instanceId") ;;
  lift (get_prop chatDetails "region") ;;
  lift (get_prop chatDetails "stage") ;;
  lift (get_prop chatDetails "featurePermissions") ;;
  lift (get_prop chatDetails "apiGatewayEndpoint") ;;
  logger_guarded Info "Chat session meta data:" ;;
  not_awaited (submitChatInitiation_begin chatDetails success failure).

(** Lines 250-255. *)
Definition resetState : M unit :=
  removeItem Local storage_key ;;
  removeItem Session storage_key ;;
  setState {| p_status := Some NotInitiated; p_chatSession := Some None;
              p_composerConfig := None; p_language := None |} ;;
  logger_guarded Info "Chat session is reset".

End ChatContainer.

(** ** The event bus *)

Module EventBus.
Section Bus.
Context (env : Env).

(** Modelled from the spec: [EventBus.trigger] ([./eventbus] is not among
    the sources).  It invokes every handler registered for the event with
    the payload and the two continuations, and does not catch what a
    handler throws.  The sources at hand register one handler, for
    [initChat]: [initiateChatSession], in the constructor of the component
    (line 55); no handler of theirs listens to [rehydrateChat]. *)
Definition trigger (name : string) (payload : jsval) (success failure : option Callback)
  : M (option Pending) :=
  emit (EvTrigger name payload success failure) ;;
  if String.eqb name "initChat" then initiateChatSession env payload success failure
  else ret None.

End Bus.
End EventBus.

(** ** The [ChatInterface] bridge and the [message] listener *)

Module ChatInterface.
Section Bridge.
Context (env : Env).

(** Lines 11-18. *)
Definition clientConfig : jsval :=
  JObj [("contactFlowId", JStr "");
        ("instanceId", JStr "");
        ("region", JStr "");
        ("stage", JStr "prod");
        ("contactAttributes", JObj []);
        ("featurePermissions", JObj [])].

(** [JSON.parse(storage.getItem("chatSessionData"))], line 28: a missing
    key gives [null], which [JSON.parse] reads as the text [null]. *)
Definition parse_item (st : StoreId) : M jsval :=
  item <- getItem st storage_key ;;
  let text := default "null" item in
  match JSON_parse env text with
  | Some v => ret v
  | None => throw (SyntaxError text)
  end.

(** Lines 20-41. *)
Definition initiateChat (input : jsval) (success failure : option Callback)
  : M (option Pending) :=
  let chatInput := Object_assign [clientConfig; input] in
  storageKey <- lift (get_prop input "chatPersistence") ;;
  chatSessionData <-
    match window_get env storageKey with
    | WFalsy => ret JNull
    | WLocalStorage => parse_item Local
    | WSessionStorage => parse_item Session
    | WObject => throw (TypeError "storage.getItem is not a function")
    end ;;
  if truthy chatSessionData then
    EventBus.trigger env "rehydrateChat" (spread [chatInput; chatSessionData])
      success failure
  else EventBus.trigger env "initChat" chatInput success failure.

(** Lines 49-53: the listener tests the [initChat] property of the event
    object it is given, and passes that object and no continuation. *)
Definition message_listener (data : jsval) : M (option Pending) :=
  flag <- lift (get_prop data "initChat") ;;
  if truthy flag then initiateChat data None None else ret None.

End Bridge.
End ChatInterface.

(** ** A browser *)

(** A concrete reader and printer of JSON texts (the grammar of ECMA-404,
    texts as UTF-8 byte strings) make the methods above run on actual
    stored texts.  A number is read as the decimal it is written as, but
    for one too small to be anything but zero as a double; no other
    rounding to doubles is modelled, and a number is printed as the
    language prints the double with those digits.  The general theorems
    hold for every [Env]. *)
Module Json.

Definition is_ws (c : ascii) : bool :=
  Ascii.eqb c " " || Ascii.eqb c "009" || Ascii.eqb c "010" || Ascii.eqb c "013".

Fixpoint skip_ws (cs : list ascii) : list ascii :=
  match cs with
  | c :: rest => if is_ws c then skip_ws rest else cs
  | [] => []
  end.

Definition digit_of (c : ascii) : option Z :=
  let n := Z.of_nat (nat_of_ascii c) in
  if ((48 <=? n) && (n <=? 57))%Z then Some (n - 48)%Z else None.

Definition hex_of (c : ascii) : option Z :=
  let n := Z.of_nat (nat_of_ascii c) in
  if ((48 <=? n) && (n <=? 57))%Z then Some (n - 48)%Z
  else if ((97 <=? n) && (n <=? 102))%Z then Some (n - 87)%Z
  else if ((65 <=? n) && (n <=? 70))%Z then Some (n - 55)%Z
  else None.

(** The leading digits of [cs]: their value on top of [acc], how many there
    are, and the rest. *)
Fixpoint read_digits (cs : list ascii) (acc : Z) (count : Z) : Z * Z * list ascii :=
  match cs with
  | c :: rest =>
      match digit_of c with
      | Some d => read_digits rest (acc * 10 + d)%Z (count + 1)%Z
      | None => (acc, count, cs)
      end
  | [] => (acc, count, [])
  end.

Definition read_int (cs : list ascii) : option (Z * list ascii) :=
  match cs with
  | c :: rest =>
      if Ascii.eqb c "0" then Some (0%Z, rest)
      else match read_digits cs 0 0 with
           | (n, k, rest') => if (k =? 0)%Z then None else Some (n, rest')
           end
  | [] => None
  end.

Definition read_frac (m : Z) (cs : list ascii) : option (Z * Z * list ascii) :=
  match cs with
  | c :: rest =>
      if Ascii.eqb c "." then
        match read_digits rest m 0 with
        | (m', k, rest') => if (k =? 0)%Z then None else Some (m', k, rest')
        end
      else Some (m, 0%Z, cs)
  | [] => Some (m, 0%Z, [])
  end.

Definition read_exp (cs : list ascii) : option (Z * list ascii) :=
  match cs with
  | c :: rest =>
      if Ascii.eqb c "e" || Ascii.eqb c "E" then
        let '(sign, rest1) :=
          match rest with
          | s :: rest1 =>
              if Ascii.eqb s "-" then ((-1)%Z, rest1)
              else if Ascii.eqb s "+" then (1%Z, rest1) else (1%Z, rest)
          | [] => (1%Z, rest)
          end in
        match read_digits rest1 0 0 with
        | (n, k, rest') => if (k =? 0)%Z then None else Some ((sign * n)%Z, rest')
        end
      else Some (0%Z, cs)
  | [] => Some (0%Z, [])
  end.

(** The decimal [m * 10^e], for [m] positive or zero, is so small that the
    nearest double is zero: it is at most [2^-1075], half the least
    positive double.  (A decimal below [10^-324] is, whatever its digits.) *)
Definition underflows (m e : Z) : bool :=
  ((0 <? m) && (e <? 0) &&
   ((Z.of_nat (String.length (pretty m)) + e <=? -324)
    || (m * 2 ^ 1075 <=? 10 ^ (- e))))%Z.

Definition read_number (cs : list ascii) : option (jsval * list ascii) :=
  let '(sign, cs1) :=
    match cs with
    | c :: rest => if Ascii.eqb c "-" then ((-1)%Z, rest) else (1%Z, cs)
    | [] => (1%Z, cs)
    end in
  match read_int cs1 with
  | Some (n, cs2) =>
      match read_frac n cs2 with
      | Some (m, k, cs3) =>
          match read_exp cs3 with
          | Some (e, cs4) =>
              if underflows m (e - k) then Some (JNum 0 0, cs4)
              else Some (JNum (sign * m) (e - k), cs4)
          | None => None
          end
      | None => None
      end
  | None => None
  end.

(** UTF-8 bytes of a code point. *)
Definition utf8 (n : Z) : list ascii :=
  let byte (z : Z) := ascii_of_nat (Z.to_nat z) in
  if (n <? 128)%Z then [byte n]
  else if (n <? 2048)%Z then [byte (192 + n / 64); byte (128 + n mod 64)]%Z
  else if (n <? 65536)%Z then
    [byte (224 + n / 4096); byte (128 + (n / 64) mod 64); byte (128 + n mod 64)]%Z
  else [byte (240 + n / 262144); byte (128 + (n / 4096) mod 64);
        byte (128 + (n / 64) mod 64); byte (128 + n mod 64)]%Z.

(** The four hexadecimal digits of a [\u] escape. *)
Definition read_hex4 (cs : list ascii) : option (Z * list ascii) :=
  match cs with
  | h1 :: h2 :: h3 :: h4 :: rest =>
      match hex_of h1, hex_of h2, hex_of h3, hex_of h4 with
      | Some a, Some b, Some c, Some d =>
          Some ((((a * 16 + b) * 16 + c) * 16 + d)%Z, rest)
      | _, _, _, _ => None
      end
  | _ => None
  end.

(** The code unit [n] of a [\u] escape with what follows it: a high
    surrogate followed by the escape of a low one is one code point. *)
Definition read_code_point (n : Z) (rest : list ascii) : list ascii * list ascii :=
  if ((55296 <=? n) && (n <? 56320))%Z then
    match rest with
    | b :: u :: rest1 =>
        if Ascii.eqb b "\" && Ascii.eqb u "u" then
          match read_hex4 rest1 with
          | Some (low, rest2) =>
              if ((56320 <=? low) && (low <? 57344))%Z
              then (utf8 (65536 + (n - 55296) * 1024 + (low - 56320))%Z, rest2)
              else (utf8 n, rest)
          | None => (utf8 n, rest)
          end
        else (utf8 n, rest)
    | _ => (utf8 n, rest)
    end
  else (utf8 n, rest).

Definition read_escape (cs : list ascii) : option (list ascii * list ascii) :=
  match cs with
  | c :: rest =>
      if Ascii.eqb c "034" then Some ([c], rest)
      else if Ascii.eqb c "\" then Some ([c], rest)
      else if Ascii.eqb c "/" then Some ([c], rest)
      else if Ascii.eqb c "b" then Some (["008"%char], rest)
      else if Ascii.eqb c "f" then Some (["012"%char], rest)
      else if Ascii.eqb c "n" then Some (["010"%char], rest)
      else if Ascii.eqb c "r" then Some (["013"%char], rest)
      else if Ascii.eqb c "t" then Some (["009"%char], rest)
      else if Ascii.eqb c "u" then
        match read_hex4 rest with
        | Some (n, rest') => Some (read_code_point n rest')
        | None => None
        end
      else None
  | [] => None
  end.

(** The characters after an opening quote, up to the closing one. *)
Fixpoint read_string (fuel : nat) (cs : list ascii) : option (list ascii * list ascii) :=
  match fuel with
  | O => None
  | S fuel' =>
      match cs with
      | [] => None
      | c :: rest =>
          if Ascii.eqb c "034" then Some ([], rest)
          else if Ascii.eqb c "\" then
            match read_escape rest with
            | Some (bytes, rest') =>
                match read_string fuel' rest' with
                | Some (s, rest'') => Some (bytes ++ s, rest'')
                | None => None
                end
            | None => None
            end
          else if (nat_of_ascii c <? 32)%nat then None
          else match read_string fuel' rest with
               | Some (s, rest') => Some (c :: s, rest')
               | None => None
               end
      end
  end.

Fixpoint drop_prefix (p cs : list ascii) : option (list ascii) :=
  match p, cs with
  | [], _ => Some cs
  | a :: p', c :: cs' => if Ascii.eqb a c then drop_prefix p' cs' else None
  | _ :: _, [] => None
  end.

Definition keyword (w : string) (v : jsval) (cs : list ascii)
  : option (jsval * list ascii) :=
  match drop_prefix (list_ascii_of_string w) cs with
  | Some rest => Some (v, rest)
  | None => None
  end.

Fixpoint read_value (fuel : nat) (cs : list ascii) : option (jsval * list ascii) :=
  match fuel with
  | O => None
  | S fuel' =>
      match skip_ws cs with
      | [] => None
      | c :: rest =>
          if Ascii.eqb c "n" then keyword "null" JNull (c :: rest)
          else if Ascii.eqb c "t" then keyword "true" (JBool true) (c :: rest)
          else if Ascii.eqb c "f" then keyword "false" (JBool false) (c :: rest)
          else if Ascii.eqb c "034" then
            match read_string (S (length rest)) rest with
            | Some (s, rest') => Some (JStr (string_of_list_ascii s), rest')
            | None => None
            end
          else if Ascii.eqb c "[" then
            match skip_ws rest with
            | c' :: rest' =>
                if Ascii.eqb c' "]" then Some (JArr [], rest')
                else match read_elements fuel' rest with
                     | Some (xs, rest'') => Some (JArr xs, rest'')
                     | None => None
                     end
            | [] => None
            end
          else if Ascii.eqb c "{" then
            match skip_ws rest with
            | c' :: rest' =>
                if Ascii.eqb c' "}" then Some (JObj [], rest')
                else match read_members fuel' rest [] with
                     | Some (fields, rest'') => Some (JObj fields, rest'')
                     | None => None
                     end
            | [] => None
            end
          else read_number (c :: rest)
      end
  end
with read_elements (fuel : nat) (cs : list ascii) : option (list jsval * list ascii) :=
  match fuel with
  | O => None
  | S fuel' =>
      match read_value fuel' cs with
      | Some (v, rest) =>
          match skip_ws rest with
          | c :: rest' =>
              if Ascii.eqb c "]" then Some ([v], rest')
              else if Ascii.eqb c "," then
                match read_elements fuel' rest' with
                | Some (vs, rest'') => Some (v :: vs, rest'')
                | None => None
                end
              else None
          | [] => None
          end
      | None => None
      end
  end
with read_members (fuel : nat) (cs : list ascii) (acc : list (string * jsval))
  : option (list (string * jsval) * list ascii) :=
  match fuel with
  | O => None
  | S fuel' =>
      match skip_ws cs with
      | q :: rest =>
          if Ascii.eqb q "034" then
            match read_string (S (length rest)) rest with
            | Some (k, rest1) =>
                match skip_ws rest1 with
                | colon :: rest2 =>
                    if Ascii.eqb colon ":" then
                      match read_value fuel' rest2 with
                      | Some (v, rest3) =>
                          let acc' := obj_set acc (string_of_list_ascii k) v in
                          match skip_ws rest3 with
                          | c :: rest4 =>
                              if Ascii.eqb c "}" then Some (acc', rest4)
                              else if Ascii.eqb c "," then read_members fuel' rest4 acc'
                              else None
                          | [] => None
                          end
                      | None => None
                      end
                    else None
                | [] => None
                end
            | None => None
            end
          else None
      | [] => None
      end
  end.

(** [JSON.parse]: one value, surrounded by white space only. *)
Definition parse (text : string) : option jsval :=
  let cs := list_ascii_of_string text in
  match read_value (2 * length cs + 2) cs with
  | Some (v, rest) => match skip_ws rest with [] => Some v | _ => None end
  | None => None
  end.

Definition hex_digit (n : Z) : ascii :=
  ascii_of_nat (Z.to_nat (if (n <? 10)%Z then 48 + n else 87 + n)%Z).

Definition quote_char (c : ascii) : string :=
  if Ascii.eqb c "034" then String "\" (String "034" "")
  else if Ascii.eqb c "\" then "\\"
  else if Ascii.eqb c "010" then "\n"
  else if Ascii.eqb c "013" then "\r"
  else if Ascii.eqb c "009" then "\t"
  else if Ascii.eqb c "008" then "\b"
  else if Ascii.eqb c "012" then "\f"
  else if (nat_of_ascii c <? 32)%nat then
    let n := Z.of_nat (nat_of_ascii c) in
    String.append "\u00" (String (hex_digit (n / 16)) (String (hex_digit (n mod 16)) ""))
  else String c "".

Definition quote (s : string) : string :=
  String "034"
    (String.append (String.concat "" (map quote_char (list_ascii_of_string s)))
       (String "034" "")).

(** The digits without their leading zeros, and how many were dropped. *)
Fixpoint drop_zeros (ds : list ascii) : nat * list ascii :=
  match ds with
  | d :: rest =>
      if Ascii.eqb d "0" then let '(n, ds') := drop_zeros rest in (S n, ds')
      else (O, ds)
  | [] => (O, [])
  end.

Definition zeros (n : Z) : string := string_of_list_ascii (repeat "0"%char (Z.to_nat n)).

(** The text of the number [m * 10^e] (Number::toString of ECMA-262): with
    [k] digits and the decimal point after the [n]-th of them, the digits
    are written out for [n] from [-5] to [21] and in exponent notation
    otherwise. *)
Definition print_number (m e : Z) : string :=
  if (m =? 0)%Z then "0"
  else
    let '(dropped, reversed) :=
      drop_zeros (rev (list_ascii_of_string (pretty (Z.abs m)))) in
    let digits := rev reversed in
    let k := Z.of_nat (length digits) in
    let n := (k + Z.of_nat dropped + e)%Z in
    let text (ds : list ascii) := string_of_list_ascii ds in
    let body :=
      if ((k <=? n) && (n <=? 21))%Z then
        String.append (text digits) (zeros (n - k))
      else if ((0 <? n) && (n <=? 21))%Z then
        String.append (text (take (Z.to_nat n) digits))
          (String.append "." (text (drop (Z.to_nat n) digits)))
      else if ((-6 <? n) && (n <=? 0))%Z then
        String.append "0." (String.append (zeros (- n)) (text digits))
      else
        let exponent :=
          String.append (if (n - 1 <? 0)%Z then "e-" else "e+") (pretty (Z.abs (n - 1))) in
        if (k =? 1)%Z then String.append (text digits) exponent
        else String.append (text (take 1 digits))
               (String.append "." (String.append (text (drop 1 digits)) exponent)) in
    if (m <? 0)%Z then String.append "-" body else body.

Definition is_undefined (v : jsval) : bool :=
  match v with JUndefined => true | _ => false end.

(** [JSON.stringify] on a value that is not [undefined]: a property whose
    value is [undefined] is left out, an [undefined] element prints [null]. *)
Fixpoint print (v : jsval) : string :=
  match v with
  | JUndefined | JNull => "null"
  | JBool true => "true"
  | JBool false => "false"
  | JNum m e => print_number m e
  | JStr s => quote s
  | JArr xs =>
      String.append "[" (String.append (String.concat "," (map print xs)) "]")
  | JObj fields =>
      let member (kv : string * jsval) : list string :=
        match kv with
        | (k, v') =>
            if is_undefined v' then []
            else [String.append (quote k) (String.append ":" (print v'))]
        end in
      String.append "{"
        (String.append (String.concat "," (concat (map member fields))) "}")
  end.

End Json.

(** A page with no other global, the collaborators given as functions, and
    host continuations that return normally: a key that is no string but
    stands for the name of one of the two stores names that store, every
    other key names nothing.  The two constants are sample values. *)
Definition browser (initiator : jsval -> Outcome jsval)
  (opener : ChatSession -> Outcome unit) : Env :=
  {| JSON_parse := Json.parse;
     JSON_stringify := Json.print;
     globals := fun key =>
       match property_name key with
       | Some name =>
           if String.eqb name "localStorage" then WLocalStorage
           else if String.eqb name "sessionStorage" then WSessionStorage
           else WFalsy
       | None => WFalsy
       end;
     ATTACHMENTS := "ATTACHMENTS";
     TEXT_MARKDOWN := "text/markdown";
     initiateChat := initiator;
     session_open := opener;
     invoke := fun _ _ => Ok tt |}.

(** Lines 44-61: a freshly constructed component on a page with the given
    stores; it has a logger when the page has a [LogManager]. *)
Definition page (local session : gmap string string) (has_logger : bool) : Sys :=
  {| localStorage := local; sessionStorage := session;
     logger := has_logger; state := initial_state |}.

(** Everything that can happen to the component and the bridge: the
    handlers and methods the page or the host calls, each running until it
    returns; an awaited promise settling, which resumes the method that
    waits for it; and the two [async] methods and [saveChatSession] run from
    their call to their end with nothing in between.  The result is what
    the operation leaves pending. *)
Inductive Operation : Type :=
| OpMount
| OpStorageChange (event : jsval)
| OpRehydrate
| OpInitChat (config : jsval) (success failure : option Callback)
| OpInitiate (config : jsval) (success failure : option Callback)
| OpPersist (config chatDetails customizationParams : jsval)
| OpReset
| OpBridge (input : jsval) (success failure : option Callback)
| OpMessage (data : jsval)
| OpSettle (pending : Pending).

Definition run_op (env : Env) (op : Operation) : M (option Pending) :=
  match op with
  | OpMount => componentDidMount env
  | OpStorageChange event => onStorageChange env event
  | OpRehydrate => checkAndRehydrateChat env ;; ret None
  | OpInitChat config success failure => initiateChatSession env config success failure
  | OpInitiate config success failure =>
      submitChatInitiation env config success failure ;; ret None
  | OpPersist config chatDetails customizationParams =>
      saveChatSession env config chatDetails customizationParams ;; ret None
  | OpReset => resetState ;; ret None
  | OpBridge input success failure => ChatInterface.initiateChat env input success failure
  | OpMessage data => ChatInterface.message_listener env data
  | OpSettle pending => resume env pending
  end.

(** ** Vocabulary of the statements *)

Definition result_of {A} (x : Outcome A * Sys * list Event) : Outcome A := x.1.1.
Definition final {A} (x : Outcome A * Sys * list Event) : Sys := x.1.2.
Definition actions {A} (x : Outcome A * Sys * list Event) : list Event := x.2.

(** The own property [k] of an object; nothing for any other value. *)
Definition field (v : jsval) (k : string) : option jsval :=
  match v with
  | JObj fields => obj_get fields k
  | _ => None
  end.

(** [v.k] for a value that is neither [undefined] nor [null]. *)
Definition prop (v : jsval) (k : string) : jsval := default JUndefined (field v k).

Definition nullish (v : jsval) : bool :=
  match v with JUndefined | JNull => true | _ => false end.

(** The store holds a text under the session-record key. *)
Definition holds_record (m : gmap string string) : Prop :=
  is_Some (m !! storage_key).

(** Exactly one of the two stores holds a record. *)
Definition exactly_one_record (s : Sys) : Prop :=
  (holds_record (localStorage s) ∧ ¬ holds_record (sessionStorage s)) ∨
  (¬ holds_record (localStorage s) ∧ holds_record (sessionStorage s)).


Definition same_stores (s s' : Sys) : Prop :=
  localStorage s' = localStorage s ∧ sessionStorage s' = sessionStorage s.

(** Both stores are as before, without the session-record key. *)
Definition stores_cleared (s s' : Sys) : Prop :=
  localStorage s' = delete storage_key (localStorage s) ∧
  sessionStorage s' = delete storage_key (sessionStorage s).

(** The store [window[config.chatPersistence]] names. *)
Definition persistence_of (env : Env) (config : jsval) : WindowValue :=
  window_get env (prop config "chatPersistence").


(** An action on a store. *)
Definition touches_store (ev : Event) : bool :=
  match ev with EvSetItem _ _ _ | EvRemoveItem _ _ => true | _ => false end.

(** The failure of one of the two asynchronous steps, as an action. *)
Definition async_failure (ev : Event) : option jserror :=
  match ev with
  | EvInitiateChat _ (Throw e) => Some e
  | EvOpenChatSession _ (Throw e) => Some e
  | _ => None
  end.

(** A method none of whose runs records a failed asynchronous step. *)
Definition quiet {A} (m : M A) : Prop :=
  ∀ s, Forall (λ ev, async_failure ev = None) (actions (m s)).


(** The record's [chatDetails.startChatResult] has both a [ContactId] and a
    [ParticipantId] property, whatever their values. *)
Definition contains_ids (R : jsval) : Prop :=
  ∃ chatDetails startChatResult,
    field R "chatDetails" = Some chatDetails ∧
    field chatDetails "startChatResult" = Some startChatResult ∧
    is_Some (field startChatResult "ContactId") ∧
    is_Some (field startChatResult "ParticipantId").

(** Both identifiers are there with a truthy value (a non-empty string, a
    number other than zero, [true], an array or an object). *)
Definition ids_truthy (chatDetails : jsval) : bool :=
  match field chatDetails "startChatResult" with
  | Some startChatResult =>
      truthy (prop startChatResult "ContactId") &&
      truthy (prop startChatResult "ParticipantId")
  | None => false
  end.

Definition valid_record (R : jsval) : bool := ids_truthy (prop R "chatDetails").

(** The session the stored record describes. *)
Definition stored_session (R : jsval) : ChatSession :=
  {| cs_chatDetails := prop R "chatDetails";
     cs_displayName := prop R "displayName";
     cs_region := prop R "region";
     cs_stage := prop R "stage";
     cs_customizationParams := prop R "customizationParams" |}.

(** The state after the [catch] of lines 106-110 and line 113. *)
Definition cleared_not_initiated (s : Sys) : Sys :=
  update_state (apply_patch (patch_status NotInitiated))
    (update_store Session (delete storage_key)
       (update_store Local (delete storage_key) s)).

(** The actions of the [catch] of lines 106-110 and of line 113. *)
Definition recovery : list Event :=
  [EvLog Error "Failed to parse chat session data from persistence key. Starting new chat.";
   EvRemoveItem Local storage_key;
   EvRemoveItem Session storage_key;
   EvSetState (patch_status NotInitiated)].

(** The [setState] of lines 98-103. *)
Definition rehydrated_patch (R : jsval) : StatePatch :=
  {| p_status := Some Initiated;
     p_chatSession := Some (Some (stored_session R));
     p_composerConfig := Some (prop R "composerConfig");
     p_language := Some (prop R "language") |}.

(** The actions of lines 87-96 on a stored record. *)
Definition opening (env : Env) (R : jsval) : list Event :=
  [EvLog Info "Found existing chat session based on persistence key. Rehydrating... V5";
   EvLog Info "Data being passed to openChatSession from checkAndRehydrateChat:";
   EvNewChatSession (stored_session R);
   EvOnChatClose (stored_session R);
   EvOpenChatSession (stored_session R) (session_open env (stored_session R))].

(** The [customizationParams] of lines 159-162. *)
Definition customization_of (input : jsval) : jsval :=
  JObj [("authenticationRedirectUri",
          js_or (prop input "authenticationRedirectUri") (JStr ""));
        ("authenticationIdentityProvider",
          js_or (prop input "authenticationIdentityProvider") (JStr ""))].

(** The session [openChatSession] constructs on a fresh initiation. *)
Definition fresh_session (input chatDetails : jsval) : ChatSession :=
  {| cs_chatDetails :=
       if truthy (prop chatDetails "startChatResult") then chatDetails
       else JObj [("startChatResult", chatDetails)];
     cs_displayName := prop input "name";
     cs_region := prop input "region";
     cs_stage := prop input "stage";
     cs_customizationParams := customization_of input |}.

(** The actions of the [try] up to the call that opens the session. *)
Definition handshake (env : Env) (input chatDetails : jsval) : list Event :=
  [EvInitiateChat input (Ok chatDetails);
   EvLog Info "Data being passed to openChatSession from submitChatInitiation:";
   EvNewChatSession (fresh_session input chatDetails);
   EvOnChatClose (fresh_session input chatDetails);
   EvOpenChatSession (fresh_session input chatDetails)
     (session_open env (fresh_session input chatDetails))].

(** The actions of the [catch] of lines 189-192. *)
Definition failure_report (failure : option Callback) (e : jserror) : list Event :=
  EvSetState (patch_status InitiateFailed)
  :: match failure with
     | Some f => [EvInvoke f (ArgError e)]
     | None => []
     end.

(** [Object.assign({}, this.clientConfig, input)], line 21. *)
Definition merged_config (input : jsval) : jsval :=
  Object_assign [ChatInterface.clientConfig; input].

(** The persistence mode names the store [st]. *)
Definition names_store (w : WindowValue) (st : StoreId) : bool :=
  match w, st with
  | WLocalStorage, Local | WSessionStorage, Session => true
  | _, _ => false
  end.

(** What line 28 hands to [JSON.parse] for the store [st]. *)
Definition item_text (st : StoreId) (s : Sys) : string :=
  default "null" (store st s !! storage_key).

(** The bridge finds no persisted record: the mode names no store, or the
    item of the store it names parses to a falsy value. *)
Definition no_record_found (env : Env) (input : jsval) (s : Sys) : Prop :=
  match persistence_of env input with
  | WFalsy => True
  | WLocalStorage =>
      ∃ v, JSON_parse env (item_text Local s) = Some v ∧ truthy v = false
  | WSessionStorage =>
      ∃ v, JSON_parse env (item_text Session s) = Some v ∧ truthy v = false
  | WObject => False
  end.

(** ** Sample inputs *)

(** The configuration, the Session Initiator's result and a rejection. *)
Definition sample_config : jsval :=
  JObj [("contactFlowId", JStr "cf1"); ("instanceId", JStr "i1");
        ("region", JStr "us-east-1"); ("chatPersistence", JStr "localStorage")].

Definition sample_details : jsval :=
  JObj [("startChatResult",
          JObj [("ContactId", JStr "c1"); ("ParticipantId", JStr "p1")])].

Definition network_error : jserror := Reason (JStr "NetworkError").

(** A Session Record with the given [ContactId]. *)
Definition record_with (contactId : jsval) : jsval :=
  JObj [("chatDetails",
          JObj [("startChatResult",
                  JObj [("ContactId", contactId); ("ParticipantId", JStr "p1")])]);
        ("displayName", JStr "Ann");
        ("region", JStr "us-east-1");
        ("stage", JStr "prod");
        ("customizationParams",
          JObj [("authenticationRedirectUri", JStr "");
                ("authenticationIdentityProvider", JStr "")]);
        ("language", JStr "fr_FR");
        ("composerConfig",
          JObj [("attachmentsEnabled", JBool true);
                ("richMessagingEnabled", JBool false)])].

Definition sample_record : jsval := record_with (JStr "c1").

(** Both collaborators succeed; the Session Initiator is down; the
    transport is down. *)
Definition all_up : Env := browser (fun _ => Ok sample_details) (fun _ => Ok tt).
Definition initiator_down : Env :=
  browser (fun _ => Throw network_error) (fun _ => Ok tt).
Definition transport_down : Env :=
  browser (fun _ => Ok sample_details) (fun _ => Throw network_error).

(** A store that holds [text] under the session-record key, and nothing else. *)
Definition stored (text : string) : gmap string string := {[storage_key := text]}.

(** A page like [base] that also has a global [name] which is no store. *)
Definition with_global (name : string) (base : Env) : Env :=
  {| JSON_parse := JSON_parse base;
     JSON_stringify := JSON_stringify base;
     globals := fun key =>
       match key with
       | JStr k => if String.eqb k name then WObject else globals base key
       | _ => globals base key
       end;
     ATTACHMENTS := ATTACHMENTS base;
     TEXT_MARKDOWN := TEXT_MARKDOWN base;
     initiateChat := initiateChat base;
     session_open := session_open base;
     invoke := invoke base |}.

(** A host like [base] whose [success] continuation throws [e]. *)
Definition with_throwing_success (e : jserror) (base : Env) : Env :=
  {| JSON_parse := JSON_parse base;
     JSON_stringify := JSON_stringify base;
     globals := globals base;
     ATTACHMENTS := ATTACHMENTS base;
     TEXT_MARKDOWN := TEXT_MARKDOWN base;
     initiateChat := initiateChat base;
     session_open := session_open base;
     invoke := fun f arg =>
       match arg with
       | ArgSession _ => Throw e
       | ArgError _ => invoke base f arg
       end |}.

(** A configuration with every property the record keeps. *)
Definition full_config (persistence : string) : jsval :=
  JObj [("contactFlowId", JStr "cf1"); ("instanceId", JStr "i1");
        ("name", JStr "Ann"); ("region", JStr "us-east-1"); ("stage", JStr "prod");
        ("language", JStr "fr_FR");
        ("featurePermissions", JObj [("ATTACHMENTS", JBool true)]);
        ("supportedMessagingContentTypes", JStr "text/plain,text/markdown");
        ("chatPersistence", JStr persistence)].

(** A configuration with no persistence mode. *)
Definition plain_config : jsval :=
  JObj [("contactFlowId", JStr "cf1"); ("instanceId", JStr "i1");
        ("region", JStr "us-east-1")].

(** A Session Initiator that answers with the identifiers themselves, not
    wrapped in [startChatResult]. *)
Definition bare_details : jsval :=
  JObj [("ContactId", JStr "c1"); ("ParticipantId", JStr "p1")].

Definition all_up_bare : Env := browser (fun _ => Ok bare_details) (fun _ => Ok tt).

(** The properties of an object, as a list. *)
Definition own_fields (v : jsval) : list (string * jsval) :=
  match v with JObj fields => fields | _ => [] end.

(** A storage event for the given key. *)
Definition storage_event (key : string) : jsval := JObj [("key", JStr key)].

(** ** Rendering and the rest of the vocabulary *)

(** What [render] returns, lines 257-293: the loader, the failure panel with
    its [Go Back] button, or the chat with the properties it is given. *)
Inductive View : Type :=
| LoaderView
| FailureView (onClick : Operation)
| ChatView (session : option ChatSession) (composer lang : jsval) (onEnded : Operation).

(** Lines 257-293. *)
Definition render (st : ComponentState) : View :=
  match status st with
  | NotInitiated | Initiating => LoaderView
  | InitiateFailed => FailureView OpReset
  | Initiated => ChatView (chatSession st) (composerConfig st) (language st) OpReset
  end.

(** The value of [o.featurePermissions && o.featurePermissions[ATTACHMENTS]]
    for an [o] that is neither [undefined] nor [null]. *)
Definition flag_of (env : Env) (o : jsval) : jsval :=
  if truthy (prop o "featurePermissions")
  then prop (prop o "featurePermissions") (ATTACHMENTS env)
  else prop o "featurePermissions".

(** The values of the two expressions of lines 174-177 (and 214-216) when
    neither the configuration nor the chat details are [undefined] or [null]. *)
Definition attachments_of (env : Env) (input chatDetails : jsval) : jsval :=
  js_or (flag_of env input) (flag_of env chatDetails).

Definition rich_of (env : Env) (input : jsval) : jsval :=
  match prop input "supportedMessagingContentTypes" with
  | JStr s => JBool (includes (TEXT_MARKDOWN env) (split_on "," s))
  | _ => JBool false
  end.

Definition composer_of (env : Env) (input chatDetails : jsval) : jsval :=
  JObj [("attachmentsEnabled", attachments_of env input chatDetails);
        ("richMessagingEnabled", rich_of env input)].

(** The record of lines 206-218 for such a configuration and details. *)
Definition session_record (env : Env) (input chatDetails : jsval) : jsval :=
  JObj [("chatDetails", chatDetails);
        ("displayName", prop input "name");
        ("region", prop input "region");
        ("stage", prop input "stage");
        ("customizationParams", customization_of input);
        ("language", prop input "language");
        ("composerConfig", composer_of env input chatDetails)].

(** The [setState] of lines 179-187. *)
Definition initiated_patch (env : Env) (input chatDetails : jsval) : StatePatch :=
  {| p_status := Some Initiated;
     p_chatSession := Some (Some (fresh_session input chatDetails));
     p_composerConfig := Some (composer_of env input chatDetails);
     p_language := Some (js_or (prop input "language") (JStr "en_US")) |}.

(** The actions of lines 173-188 once the record is saved. *)
Definition completion (env : Env) (input chatDetails : jsval)
  (success : option Callback) : list Event :=
  [EvSetCurrentChatSessionInstance (fresh_session input chatDetails);
   EvSetState (initiated_patch env input chatDetails)]
  ++ match success with
     | Some f => [EvInvoke f (ArgSession (fresh_session input chatDetails))]
     | None => []
     end.

(** How the [success] continuation returns on the opened session. *)
Definition success_result (env : Env) (input chatDetails : jsval)
  (success : option Callback) : Outcome unit :=
  match success with
  | Some f => invoke env f (ArgSession (fresh_session input chatDetails))
  | None => Ok tt
  end.

(** A store in which the record lies as the only change under the key. *)
Definition with_record (text : string) (m : gmap string string) : gmap string string :=
  <[storage_key:=text]> (delete storage_key m).

(** A reload: a new component over the stores a run has left. *)
Definition reloaded (s : Sys) (has_logger : bool) : Sys :=
  page (localStorage s) (sessionStorage s) has_logger.

(** The actions a rehydration may perform: logging, removing the key,
    constructing and opening a session, and setting the status to
    [Initiated] or [NotInitiated]. *)
Definition rehydration_action (ev : Event) : bool :=
  match ev with
  | EvLog _ _ | EvNewChatSession _ | EvOnChatClose _ | EvOpenChatSession _ _ => true
  | EvRemoveItem _ k => String.eqb k storage_key
  | EvSetState p =>
      match p_status p with
      | Some Initiated | Some NotInitiated => true
      | _ => false
      end
  | _ => false
  end.

(** Both stores agree with the earlier ones on every key but the
    session-record key. *)
Definition other_keys_kept (s s' : Sys) : Prop :=
  ∀ k, k ≠ storage_key →
       localStorage s' !! k = localStorage s !! k ∧
       sessionStorage s' !! k = sessionStorage s !! k.

(** A method that keeps every other key, the logger, and never fails to
    say so whatever its result. *)
Definition framed {A} (m : M A) : Prop :=
  ∀ s, other_keys_kept s (final (m s)) ∧ logger (final (m s)) = logger s.

(** The actions of the [initChat] handler up to its return: the meta data
    are logged when there is a logger, the status is set and the Session
    Initiator is called. *)
Definition initiation_started (env : Env) (config : jsval) (has_logger : bool)
  : list Event :=
  (if has_logger then [EvLog Info "Chat session meta data:"] else [])
  ++ [EvSetState (patch_status Initiating);
      EvInitiateChat config (initiateChat env config)].

(** The state in which the handler leaves the component. *)
Definition initiating (s : Sys) : Sys :=
  update_state (apply_patch (patch_status Initiating)) s.

(** The event a [message] listener receives when a window posts [payload]
    to this one ([postMessage(payload, ..)]): the payload is the value of
    the event's [data]; of the other properties of a message event, none of
    which is named [initChat] or [chatPersistence], the type, the origin
    and the last event id are kept. *)
Definition message_event (payload : jsval) (origin : string) : jsval :=
  JObj [("type", JStr "message"); ("data", payload); ("origin", JStr origin);
        ("lastEventId", JStr "")].

(** The number of events a run triggers on the bus. *)
Definition is_trigger (ev : Event) : bool :=
  match ev with EvTrigger _ _ _ _ => true | _ => false end.

Definition triggers (t : list Event) : nat := length (List.filter is_trigger t).

(** The status is one a finished initiation leaves. *)
Definition settled (st : Status) : bool :=
  match st with Initiated | InitiateFailed => true | _ => false end.

Arguments window_get : simpl never.
Arguments chatSessionData_of : simpl never.
Arguments attachmentsEnabled : simpl never.
Arguments richMessagingEnabled : simpl never.
Arguments rehydratable : simpl never.
Arguments Object_assign : simpl never.
Arguments spread : simpl never.
Arguments EventBus.trigger : simpl never.
Arguments initiateChatSession : simpl never.

(** * Properties *)

(** ** Values and stores *)

Lemma get_prop_prop v k : nullish v = false → get_prop v k = Ok (prop v k).
Proof. by destruct v. Qed.

Lemma get_prop_nullish v k : nullish v = true → ∃ msg, get_prop v k = Throw (TypeError msg).
Proof. destruct v; try discriminate; cbn; eauto. Qed.

Lemma truthy_not_nullish v : truthy v = true → nullish v = false.
Proof. by destruct v. Qed.

Lemma prop_truthy_object v k : truthy (prop v k) = true → ∃ fields, v = JObj fields.
Proof. destruct v; cbn; try discriminate. eauto. Qed.

Lemma prop_truthy_not_nullish v k : truthy (prop v k) = true → nullish v = false.
Proof. by destruct v. Qed.

Lemma holds_record_delete (m : gmap string string) :
  ¬ holds_record (delete storage_key m).
Proof. unfold holds_record. rewrite lookup_delete_eq. by intros [? ?]. Qed.

Lemma delete_twice (m : gmap string string) :
  delete storage_key (delete storage_key m) = delete storage_key m.
Proof. apply delete_id, lookup_delete_eq. Qed.

Lemma delete_after_write (m : gmap string string) (text : string) :
  delete storage_key (<[storage_key:=text]> (delete storage_key m))
  = delete storage_key m.
Proof. by rewrite delete_insert_eq, delete_twice. Qed.

(** ** Runs of composed methods *)

Lemma bind_ok {A B} (m : M A) (k : A → M B) s a s1 t1 :
  m s = (Ok a, s1, t1) →
  bind m k s = (result_of (k a s1), final (k a s1), t1 ++ actions (k a s1)).
Proof.
  intros H. unfold bind, result_of, final, actions. rewrite H.
  by destruct (k a s1) as [[? ?] ?].
Qed.

Lemma bind_throw {A B} (m : M A) (k : A → M B) s e s1 t1 :
  m s = (Throw e, s1, t1) → bind m k s = (Throw e, s1, t1).
Proof. intros H. unfold bind. by rewrite H. Qed.

Lemma try_catch_ok {A} (m : M A) (h : jserror → M A) s a s1 t1 :
  m s = (Ok a, s1, t1) → try_catch m h s = (Ok a, s1, t1).
Proof. intros H. unfold try_catch. by rewrite H. Qed.

Lemma try_catch_throw {A} (m : M A) (h : jserror → M A) s e s1 t1 :
  m s = (Throw e, s1, t1) →
  try_catch m h s = (result_of (h e s1), final (h e s1), t1 ++ actions (h e s1)).
Proof.
  intros H. unfold try_catch, result_of, final, actions. rewrite H.
  by destruct (h e s1) as [[? ?] ?].
Qed.

(** Case analysis on the run of the first method of a sequence. *)
Ltac run_of m s :=
  let r := fresh "r" in
  let s1 := fresh "s" in
  let t1 := fresh "t" in
  let E := fresh "Erun" in
  destruct (m s) as [[r s1] t1] eqn:E; destruct r.

(** *** No failed asynchronous step *)

Section Quiet.
Context (env : Env).

Lemma quiet_ret {A} (a : A) : quiet (ret a).
Proof. intros s. constructor. Qed.

Lemma quiet_throw {A} e : quiet (@throw A e).
Proof. intros s. constructor. Qed.

Lemma quiet_lift {A} (o : Outcome A) : quiet (lift o).
Proof. intros s. constructor. Qed.

Lemma quiet_emit ev : async_failure ev = None → quiet (emit ev).
Proof. intros H s. by repeat constructor. Qed.

Lemma quiet_bind {A B} (m : M A) (k : A → M B) :
  quiet m → (∀ a, quiet (k a)) → quiet (bind m k).
Proof.
  intros Hm Hk s. specialize (Hm s). run_of m s.
  - rewrite (bind_ok _ _ _ _ _ _ Erun). cbn in *.
    apply Forall_app. split; [done | apply Hk].
  - by rewrite (bind_throw _ _ _ _ _ _ Erun).
Qed.

Lemma quiet_try_catch {A} (m : M A) (h : jserror → M A) :
  quiet m → (∀ e, quiet (h e)) → quiet (try_catch m h).
Proof.
  intros Hm Hh s. specialize (Hm s). run_of m s.
  - by rewrite (try_catch_ok _ _ _ _ _ _ Erun).
  - rewrite (try_catch_throw _ _ _ _ _ _ Erun). cbn in *.
    apply Forall_app. split; [done | apply Hh].
Qed.

Lemma quiet_removeItem st k : quiet (removeItem st k).
Proof. intros s. by repeat constructor. Qed.

Lemma quiet_setItem st k v : quiet (setItem st k v).
Proof. intros s. by repeat constructor. Qed.

Lemma quiet_setState p : quiet (setState p).
Proof. intros s. by repeat constructor. Qed.

Lemma quiet_logger_call lvl msg : quiet (logger_call lvl msg).
Proof. intros s. unfold logger_call. destruct (logger s); by repeat constructor. Qed.

Lemma quiet_call_if_set cb arg : quiet (call_if_set env cb arg).
Proof.
  destruct cb; cbn; [|apply quiet_ret].
  apply quiet_bind; [by apply quiet_emit | intros; apply quiet_lift].
Qed.

Lemma quiet_saveChatSession input chatDetails customizationParams :
  quiet (saveChatSession env input chatDetails customizationParams).
Proof.
  unfold saveChatSession.
  apply quiet_bind; [apply quiet_lift | intros key].
  do 2 (apply quiet_bind; [apply quiet_removeItem | intros _]).
  destruct (window_get env key);
    repeat first
      [ apply quiet_removeItem | apply quiet_setItem | apply quiet_throw
      | apply quiet_lift | apply quiet_bind | intros ? ].
Qed.

Lemma quiet_finish_initiation input chatDetails customizationParams chatSession success :
  quiet (finish_initiation env input chatDetails customizationParams chatSession success).
Proof.
  unfold finish_initiation.
  repeat first
    [ apply quiet_saveChatSession | apply quiet_call_if_set | apply quiet_setState
    | apply quiet_lift | by apply quiet_emit | apply quiet_bind | intros ? ].
Qed.

End Quiet.

(** ** Persistence: [saveChatSession] and [resetState] *)

Section Persistence.
Context (env : Env).

(** What a call of [saveChatSession] does, by the store its configuration
    names and by whether the record can be built. *)
Lemma saveChatSession_run input chatDetails customizationParams s :
  nullish input = false →
  let run := saveChatSession env input chatDetails customizationParams s in
  let record := chatSessionData_of env input chatDetails customizationParams in
  let cleared :=
    [EvRemoveItem Local storage_key; EvRemoveItem Session storage_key] in
  logger (final run) = logger s ∧ state (final run) = state s ∧
  match persistence_of env input, record with
  | WFalsy, _ =>
      result_of run = Ok tt ∧ actions run = cleared ++ cleared ∧
      stores_cleared s (final run)
  | WLocalStorage, Ok data =>
      result_of run = Ok tt ∧
      actions run = cleared ++ [EvSetItem Local storage_key (JSON_stringify env data)] ∧
      localStorage (final run)
        = <[storage_key:=JSON_stringify env data]> (delete storage_key (localStorage s)) ∧
      sessionStorage (final run) = delete storage_key (sessionStorage s)
  | WSessionStorage, Ok data =>
      result_of run = Ok tt ∧
      actions run = cleared ++ [EvSetItem Session storage_key (JSON_stringify env data)] ∧
      localStorage (final run) = delete storage_key (localStorage s) ∧
      sessionStorage (final run)
        = <[storage_key:=JSON_stringify env data]> (delete storage_key (sessionStorage s))
  | WObject, Ok _ =>
      result_of run = Throw (TypeError "storage.setItem is not a function") ∧
      actions run = cleared ∧ stores_cleared s (final run)
  | _, Throw e =>
      result_of run = Throw e ∧ actions run = cleared ∧ stores_cleared s (final run)
  end.
Proof.
  intros Hin.
  unfold persistence_of, saveChatSession, bind, lift, result_of, final, actions,
    stores_cleared.
  rewrite get_prop_prop by done. cbn [fst snd].
  destruct (window_get env (prop input "chatPersistence"));
    cbn; rewrite ?delete_twice;
    try (destruct (chatSessionData_of env input chatDetails customizationParams));
    cbn; auto 10.
Qed.




Lemma resetState_run s :
  let run := resetState s in
  result_of run = Ok tt ∧ stores_cleared s (final run) ∧
  logger (final run) = logger s ∧
  state (final run)
    = {| chatSession := None; composerConfig := composerConfig (state s);
         status := NotInitiated; language := language (state s) |}.
Proof.
  unfold resetState, bind, logger_guarded, result_of, final, stores_cleared. cbn.
  destruct (logger s); cbn; auto.
Qed.

End Persistence.

(** *** At most one record *)

Section Tidy.
Context (env : Env).



















End Tidy.


Section Invariant.
Context (env : Env).










End Invariant.

(** ** Rehydration: [checkAndRehydrateChat] *)

Arguments prop : simpl never.
Arguments stored_session : simpl never.

Section Rehydration.
Context (env : Env).

(** The condition of line 86 never throws, and it holds exactly when both
    identifiers are truthy. *)
Lemma rehydratable_spec chatDetails :
  rehydratable chatDetails = Ok (ids_truthy chatDetails).
Proof.
  unfold rehydratable, ids_truthy.
  destruct chatDetails as [| |b|m e|t|xs|fields]; cbn; try reflexivity.
  - by destruct b.
  - by destruct (negb (m =? 0)%Z).
  - by destruct (negb (String.eqb t "")).
  - destruct (obj_get fields "startChatResult") as [scr|]; cbn; [|reflexivity].
    destruct (truthy scr) eqn:Hscr.
    + rewrite !(get_prop_prop scr) by by apply truthy_not_nullish.
      by destruct (truthy (prop scr "ContactId")).
    + destruct scr; cbn in *; try discriminate; try reflexivity.
Qed.

Lemma valid_record_object R :
  valid_record R = true → ∃ fields, R = JObj fields.
Proof.
  unfold valid_record, ids_truthy. destruct R; cbn; try discriminate. eauto.
Qed.

Lemma valid_record_details R :
  valid_record R = true →
  truthy (prop (prop R "chatDetails") "startChatResult") = true.
Proof.
  intros H. unfold valid_record, ids_truthy in H. unfold prop at 1.
  destruct (field (prop R "chatDetails") "startChatResult") as [scr|];
    [|discriminate].
  apply andb_prop in H as [H _]. by apply prop_truthy_object in H as [fields ->].
Qed.

Lemma valid_contains_ids R : valid_record R = true → contains_ids R.
Proof.
  intros H. unfold contains_ids, valid_record, ids_truthy in *.
  destruct (field (prop R "chatDetails") "startChatResult") as [scr|] eqn:Hscr;
    [|discriminate].
  apply andb_prop in H as [Hc Hp].
  exists (prop R "chatDetails"), scr. unfold prop in *.
  destruct (field R "chatDetails") as [cd|]; [|discriminate].
  destruct (field scr "ContactId"), (field scr "ParticipantId");
    try discriminate; eauto.
Qed.

(** Line 79: a non-empty text in the local store is the one read. *)
Lemma read_prefers_local s text :
  localStorage s !! storage_key = Some text → text ≠ "" →
  read_chatSessionData s = Some text.
Proof.
  intros H Hne. unfold read_chatSessionData, nonempty. rewrite H.
  destruct (String.eqb_spec text ""); [done | reflexivity].
Qed.

Lemma nonempty_Some o text : nonempty o = Some text → o = Some text ∧ text ≠ "".
Proof.
  unfold nonempty. destruct o as [t|]; [|discriminate].
  destruct (String.eqb_spec t ""); [discriminate|]. by intros [= ->].
Qed.

(** Line 79: the text read is non-empty and comes from the local store, or
    from the session store when the local one has no non-empty text. *)
Lemma read_origin s text :
  read_chatSessionData s = Some text →
  text ≠ "" ∧
  (localStorage s !! storage_key = Some text ∨
   (nonempty (localStorage s !! storage_key) = None ∧
    sessionStorage s !! storage_key = Some text)).
Proof.
  unfold read_chatSessionData.
  destruct (nonempty (localStorage s !! storage_key)) as [t|] eqn:Hl.
  - intros [= ->]. apply nonempty_Some in Hl as [? ?]. auto.
  - intros [? ?]%nonempty_Some. auto.
Qed.

(** No usable text under the key: line 113 alone. *)
Lemma rehydrate_absent s :
  read_chatSessionData s = None →
  checkAndRehydrateChat env s
  = (Ok tt, update_state (apply_patch (patch_status NotInitiated)) s,
     [EvSetState (patch_status NotInitiated)]).
Proof. intros H. unfold checkAndRehydrateChat. by rewrite H. Qed.

(** The [try] threw before changing anything, and the logger is there. *)
Lemma rehydrate_caught s text e t :
  read_chatSessionData s = Some text →
  rehydrate_body env text s = (Throw e, s, t) →
  logger s = true →
  checkAndRehydrateChat env s = (Ok tt, cleared_not_initiated s, t ++ recovery).
Proof.
  intros Hread Hbody Hlog.
  unfold checkAndRehydrateChat. rewrite Hread.
  unfold bind, try_catch. rewrite Hbody.
  unfold rehydrate_handler, bind, logger_call. rewrite Hlog. cbn.
  by rewrite <- app_assoc.
Qed.

(** The [try] threw and there is no logger: line 107 throws in its turn. *)
Lemma rehydrate_uncaught s text e t :
  read_chatSessionData s = Some text →
  rehydrate_body env text s = (Throw e, s, t) →
  logger s = false →
  checkAndRehydrateChat env s
  = (Throw (TypeError "Cannot read properties of undefined"), s, t).
Proof.
  intros Hread Hbody Hlog.
  unfold checkAndRehydrateChat. rewrite Hread.
  unfold bind, try_catch. rewrite Hbody.
  unfold rehydrate_handler, bind, logger_call. rewrite Hlog. cbn.
  by rewrite app_nil_r.
Qed.

(** The [try] left by its end, not by line 104. *)
Lemma rehydrate_skipped s text :
  read_chatSessionData s = Some text →
  rehydrate_body env text s = (Ok false, s, []) →
  checkAndRehydrateChat env s
  = (Ok tt, update_state (apply_patch (patch_status NotInitiated)) s,
     [EvSetState (patch_status NotInitiated)]).
Proof.
  intros Hread Hbody. unfold checkAndRehydrateChat. rewrite Hread.
  unfold bind, try_catch. by rewrite Hbody.
Qed.

(** The [try] returned at line 104. *)
Lemma rehydrate_returned s text s1 t :
  read_chatSessionData s = Some text →
  rehydrate_body env text s = (Ok true, s1, t) →
  checkAndRehydrateChat env s = (Ok tt, s1, t).
Proof.
  intros Hread Hbody. unfold checkAndRehydrateChat. rewrite Hread.
  unfold bind, try_catch. rewrite Hbody. cbn. by rewrite app_nil_r.
Qed.

Lemma body_malformed s text :
  JSON_parse env text = None →
  rehydrate_body env text s = (Throw (SyntaxError text), s, []).
Proof. intros H. unfold rehydrate_body, bind. by rewrite H. Qed.

Lemma body_nullish s text R :
  JSON_parse env text = Some R → nullish R = true →
  ∃ msg, rehydrate_body env text s = (Throw (TypeError msg), s, []).
Proof.
  intros H Hn. unfold rehydrate_body, bind. rewrite H.
  destruct R; try discriminate; cbn; eauto.
Qed.

Lemma body_invalid s text R :
  JSON_parse env text = Some R → nullish R = false → valid_record R = false →
  rehydrate_body env text s = (Ok false, s, []).
Proof.
  intros H Hn Hv. unfold rehydrate_body, bind, lift, ret. rewrite H.
  rewrite get_prop_prop by done. rewrite rehydratable_spec.
  unfold valid_record in Hv. by rewrite Hv.
Qed.

Lemma body_no_logger s text R :
  JSON_parse env text = Some R → valid_record R = true → logger s = false →
  rehydrate_body env text s
  = (Throw (TypeError "Cannot read properties of undefined"), s, []).
Proof.
  intros H Hv Hlog. destruct (valid_record_object R Hv) as [fields ->].
  unfold rehydrate_body, bind, lift, ret. rewrite H.
  rewrite get_prop_prop by done. rewrite rehydratable_spec.
  unfold valid_record in Hv. rewrite Hv.
  unfold logger_call. by rewrite Hlog.
Qed.

Lemma body_valid s text R :
  JSON_parse env text = Some R → valid_record R = true → logger s = true →
  rehydrate_body env text s
  = match session_open env (stored_session R) with
    | Ok _ => (Ok true, update_state (apply_patch (rehydrated_patch R)) s,
               opening env R ++ [EvSetState (rehydrated_patch R)])
    | Throw e => (Throw e, s, opening env R)
    end.
Proof.
  intros H Hv Hlog. pose proof (valid_record_details R Hv) as Hscr.
  destruct (valid_record_object R Hv) as [fields ->].
  unfold rehydrate_body, bind, lift, ret. rewrite H.
  rewrite !get_prop_prop by done. rewrite rehydratable_spec.
  unfold valid_record in Hv. rewrite Hv.
  unfold logger_call. rewrite Hlog. cbn. rewrite Hlog. cbn.
  rewrite get_prop_prop by (by apply prop_truthy_not_nullish in Hscr).
  cbn. rewrite Hscr. fold (stored_session (JObj fields)).
  fold (rehydrated_patch (JObj fields)). unfold opening.
  destruct (session_open env (stored_session (JObj fields))) as [[]|e]; reflexivity.
Qed.

End Rehydration.

(** ** Initiation: [submitChatInitiation] *)

Arguments fresh_session : simpl never.
Arguments handshake : simpl never.
Arguments failure_report : simpl never.
Arguments customization_of : simpl never.

Section Initiation.
Context (env : Env).

Lemma initiation_catch_run failure e s :
  initiation_catch env failure e s
  = (match failure with Some f => invoke env f (ArgError e) | None => Ok tt end,
     update_state (apply_patch (patch_status InitiateFailed)) s,
     failure_report failure e).
Proof.
  unfold initiation_catch, failure_report, bind, call_if_set.
  destruct failure as [f|]; cbn; [|reflexivity].
  by destruct (invoke env f (ArgError e)) as [[]|].
Qed.

(** The [try], up to the point where both awaited calls have succeeded. *)
Lemma initiation_try_run input success s :
  nullish input = false →
  initiation_try env input (customization_of input) success s
  = match initiateChat env input with
    | Throw e => (Throw e, s, [EvInitiateChat input (Throw e)])
    | Ok chatDetails =>
        if logger s then
          match get_prop chatDetails "startChatResult" with
          | Throw e =>
              (Throw e, s,
               [EvInitiateChat input (Ok chatDetails);
                EvLog Info "Data being passed to openChatSession from submitChatInitiation:"])
          | Ok _ =>
              match session_open env (fresh_session input chatDetails) with
              | Throw e => (Throw e, s, handshake env input chatDetails)
              | Ok _ =>
                  let run := finish_initiation env input chatDetails
                               (customization_of input)
                               (fresh_session input chatDetails) success s in
                  (result_of run, final run, handshake env input chatDetails ++ actions run)
              end
          end
        else (Throw (TypeError "Cannot read properties of undefined"), s,
              [EvInitiateChat input (Ok chatDetails)])
    end.
Proof.
  intros Hin. unfold initiation_try, bind, lift, emit, logger_call, handshake.
  destruct (initiateChat env input) as [chatDetails|e]; [|reflexivity].
  destruct (logger s); [|reflexivity].
  rewrite !get_prop_prop by done.
  unfold openChatSession, bind, lift, emit, ret.
  destruct (nullish chatDetails) eqn:Hcd.
  - by destruct (get_prop_nullish chatDetails "startChatResult" Hcd) as [msg ->].
  - rewrite get_prop_prop by done.
    fold (fresh_session input chatDetails).
    destruct (session_open env (fresh_session input chatDetails)) as [[]|e];
      [|reflexivity].
    unfold result_of, final, actions.
    by destruct (finish_initiation _ _ _ _ _ _ s) as [[? ?] ?].
Qed.

Lemma submitChatInitiation_run input success failure s :
  nullish input = false →
  let run :=
    try_catch (initiation_try env input (customization_of input) success)
              (initiation_catch env failure)
              (update_state (apply_patch (patch_status Initiating)) s) in
  submitChatInitiation env input success failure s
  = (result_of run, final run, EvSetState (patch_status Initiating) :: actions run).
Proof.
  intros Hin. unfold submitChatInitiation, bind, lift, setState.
  rewrite !get_prop_prop by done. fold (customization_of input).
  unfold result_of, final, actions. by destruct (try_catch _ _ _) as [[? ?] ?].
Qed.

(** A configuration that is [undefined] or [null]: line 160 throws, outside
    of the [try]. *)
Lemma submitChatInitiation_nullish input success failure s :
  nullish input = true →
  ∃ msg, submitChatInitiation env input success failure s
         = (Throw (TypeError msg),
            update_state (apply_patch (patch_status Initiating)) s,
            [EvSetState (patch_status Initiating)]).
Proof.
  intros Hin. unfold submitChatInitiation, bind, lift, setState.
  destruct (get_prop_nullish input "authenticationRedirectUri" Hin) as [msg ->].
  eauto.
Qed.

(** The [try] threw without having changed anything: the [catch] runs. *)
Lemma submitChatInitiation_caught input success failure s e t :
  nullish input = false →
  initiation_try env input (customization_of input) success
    (update_state (apply_patch (patch_status Initiating)) s)
  = (Throw e, update_state (apply_patch (patch_status Initiating)) s, t) →
  let run := submitChatInitiation env input success failure s in
  status (state (final run)) = InitiateFailed ∧
  same_stores s (final run) ∧
  actions run = EvSetState (patch_status Initiating) :: t ++ failure_report failure e.
Proof.
  intros Hin Htry. cbv zeta.
  rewrite submitChatInitiation_run by done. cbv zeta.
  rewrite (try_catch_throw _ _ _ _ _ _ Htry), initiation_catch_run.
  by cbn.
Qed.

(** A rejection of the Session Initiator is recorded by the run. *)
Lemma initiator_failure_recorded input success failure s e :
  nullish input = false →
  initiateChat env input = Throw e →
  In (EvInitiateChat input (Throw e))
     (actions (submitChatInitiation env input success failure s)).
Proof.
  intros Hin Hinit.
  pose proof (initiation_try_run input success
                (update_state (apply_patch (patch_status Initiating)) s) Hin) as Htry.
  rewrite Hinit in Htry.
  destruct (submitChatInitiation_caught input success failure s _ _ Hin Htry)
    as (_ & _ & ->).
  right. by left.
Qed.

(** A rejection of the open call is recorded by the run; the call is made
    when the Session Initiator gave an actual value and the logger is there. *)
Lemma open_failure_recorded input chatDetails success failure s e :
  nullish input = false →
  initiateChat env input = Ok chatDetails →
  nullish chatDetails = false →
  logger s = true →
  session_open env (fresh_session input chatDetails) = Throw e →
  In (EvOpenChatSession (fresh_session input chatDetails) (Throw e))
     (actions (submitChatInitiation env input success failure s)).
Proof.
  intros Hin Hinit Hcd Hlog Hopen.
  pose proof (initiation_try_run input success
                (update_state (apply_patch (patch_status Initiating)) s) Hin) as Htry.
  rewrite Hinit in Htry. cbn [logger update_state] in Htry.
  rewrite Hlog, (get_prop_prop chatDetails) in Htry by done.
  rewrite Hopen in Htry.
  destruct (submitChatInitiation_caught input success failure s _ _ Hin Htry)
    as (_ & _ & ->).
  unfold handshake. rewrite Hopen. do 5 right. by left.
Qed.

End Initiation.

(** ** The two [async] methods, cut at their awaits *)

(** Case analysis of a run, one step at a time, innermost first. *)
Ltac run_cases :=
  repeat first
    [ reflexivity
    | progress cbn
    | progress rewrite ?app_nil_r, <- ?app_assoc
    | match goal with
      | |- context [match ?x with _ => _ end] =>
          lazymatch x with
          | context [match _ with _ => _ end] => fail
          | _ => destruct x
          end
      | x : unit |- _ => destruct x
      end ].

Section Cut.
Context (env : Env).

(** Awaiting [openChatSession]: the call, then the settled promise. *)
Lemma openChatSession_awaited chatDetails name region stage customizationParams s :
  openChatSession env chatDetails name region stage customizationParams s
  = bind (openChatSession_call env chatDetails name region stage customizationParams)
      (λ chatSession, bind (lift (session_open env chatSession)) (λ _, ret chatSession)) s.
Proof.
  unfold openChatSession, openChatSession_call, bind, lift, emit, ret.
  destruct (get_prop chatDetails "startChatResult") as [scr|e]; [|reflexivity].
  cbn. by destruct (session_open env _) as [[]|e].
Qed.

(** The parts of [submitChatInitiation], run one after the other with
    nothing in between, are the method from its call to its end. *)
Lemma submitChatInitiation_cut input success failure s :
  bind (submitChatInitiation_begin env input success failure) (to_its_end env) s
  = submitChatInitiation env input success failure s.
Proof.
  unfold submitChatInitiation, submitChatInitiation_begin, to_its_end, resume,
    submitChatInitiation_resume_initiator, submitChatInitiation_resume_open,
    initiation_try, openChatSession, openChatSession_call.
  generalize (finish_initiation env) (initiation_catch env). intros finish handler.
  unfold bind, try_catch, lift, emit, ret, setState, logger_call.
  run_cases.
Qed.

(** So are the parts of [checkAndRehydrateChat]. *)
Lemma checkAndRehydrateChat_cut s :
  bind (checkAndRehydrateChat_begin env) (to_its_end env) s
  = checkAndRehydrateChat env s.
Proof.
  unfold checkAndRehydrateChat, checkAndRehydrateChat_begin, to_its_end, resume,
    checkAndRehydrateChat_resume, rehydrate_body, rehydrate_body_begin,
    rehydrate_handler, openChatSession, openChatSession_call.
  unfold bind, try_catch, lift, emit, ret, throw, setState, removeItem, logger_call.
  run_cases.
Qed.

(** [checkAndRehydrateChat] up to its [await], in each of its cases: no
    text, or a text that parses to a value failing the test of line 86;
    a text the [catch] recovers from; no logger where one is needed; a
    valid record, for which the method stops at line 90 with the session
    constructed and its opening under way, the state and the stores as
    they were. *)
Lemma checkAndRehydrateChat_begin_cases s :
  let run := checkAndRehydrateChat_begin env s in
  run = (Ok None, update_state (apply_patch (patch_status NotInitiated)) s,
         [EvSetState (patch_status NotInitiated)]) ∨
  (logger s = true ∧ run = (Ok None, cleared_not_initiated s, recovery)) ∨
  (logger s = false ∧
   run = (Throw (TypeError "Cannot read properties of undefined"), s, [])) ∨
  (logger s = true ∧
   ∃ text R, read_chatSessionData s = Some text ∧
             JSON_parse env text = Some R ∧ valid_record R = true ∧
             run = (Ok (Some (AwaitRehydrationOpen R (stored_session R))), s,
                    opening env R)).
Proof.
  cbv zeta. unfold checkAndRehydrateChat_begin.
  destruct (read_chatSessionData s) as [text|] eqn:Hread; [|by left].
  assert (∀ e0, rehydrate_body_begin env text s = (Throw e0, s, []) →
    (logger s = true ∧
     bind (try_catch (rehydrate_body_begin env text)
             (λ error, bind (rehydrate_handler error) (λ _, ret None)))
          (λ pending : option Pending,
             match pending with
             | Some p => ret (Some p)
             | None => bind (setState (patch_status NotInitiated)) (λ _, ret None)
             end) s
     = (Ok None, cleared_not_initiated s, recovery)) ∨
    (logger s = false ∧
     bind (try_catch (rehydrate_body_begin env text)
             (λ error, bind (rehydrate_handler error) (λ _, ret None)))
          (λ pending : option Pending,
             match pending with
             | Some p => ret (Some p)
             | None => bind (setState (patch_status NotInitiated)) (λ _, ret None)
             end) s
     = (Throw (TypeError "Cannot read properties of undefined"), s, []))) as Hthrown.
  { intros e0 Hbody.
    destruct (logger s) eqn:Hlog; [left | right]; (split; [done|]);
      unfold bind at 1, try_catch; rewrite Hbody;
      unfold rehydrate_handler, bind, logger_call; by rewrite Hlog. }
  destruct (JSON_parse env text) as [R|] eqn:Hparse.
  2:{ right. destruct (Hthrown (SyntaxError text)) as [H|H];
        [|by left|by right; left].
      unfold rehydrate_body_begin, bind. by rewrite Hparse. }
  destruct (nullish R) eqn:Hnull.
  { right. destruct (get_prop_nullish R "chatDetails" Hnull) as [msg Hmsg].
    destruct (Hthrown (TypeError msg)) as [H|H]; [|by left|by right; left].
    unfold rehydrate_body_begin, bind, lift, ret. by rewrite Hparse, Hmsg. }
  destruct (valid_record R) eqn:Hvalid.
  2:{ left. unfold bind, try_catch, rehydrate_body_begin, bind, lift, ret.
      rewrite Hparse. rewrite get_prop_prop by done. rewrite rehydratable_spec.
      unfold valid_record in Hvalid. by rewrite Hvalid. }
  destruct (logger s) eqn:Hlog.
  2:{ right. destruct (Hthrown (TypeError "Cannot read properties of undefined"))
        as [[H _]|H]; [|congruence|by right; left].
      unfold rehydrate_body_begin, bind, lift, ret.
      rewrite Hparse. rewrite get_prop_prop by done. rewrite rehydratable_spec.
      unfold valid_record in Hvalid. rewrite Hvalid.
      unfold logger_call. by rewrite Hlog. }
  right. right. right. split; [done|]. exists text, R. repeat split; try done.
  pose proof (valid_record_details R Hvalid) as Hscr.
  destruct (valid_record_object R Hvalid) as [fields ->].
  unfold bind, try_catch, rehydrate_body_begin, bind, lift, ret. rewrite Hparse.
  rewrite !get_prop_prop by done. rewrite rehydratable_spec.
  unfold valid_record in Hvalid. rewrite Hvalid.
  unfold logger_call. rewrite Hlog. cbn. rewrite Hlog. cbn.
  unfold openChatSession_call, bind, lift, emit, ret.
  rewrite get_prop_prop by (by apply prop_truthy_not_nullish in Hscr).
  cbn. rewrite Hscr. reflexivity.
Qed.

(** The rest of a rehydration, from whatever state the settled promise
    finds: a successful open installs the stored session and the record's
    [composerConfig] and [language]; a failed one goes to the [catch]. *)
Lemma checkAndRehydrateChat_resume_run R s :
  nullish R = false →
  checkAndRehydrateChat_resume env R (stored_session R) s
  = match session_open env (stored_session R) with
    | Ok _ => (Ok tt, update_state (apply_patch (rehydrated_patch R)) s,
               [EvSetState (rehydrated_patch R)])
    | Throw e =>
        if logger s then (Ok tt, cleared_not_initiated s, recovery)
        else (Throw (TypeError "Cannot read properties of undefined"), s, [])
    end.
Proof.
  intros Hin.
  unfold checkAndRehydrateChat_resume, bind, try_catch, lift, ret.
  destruct (session_open env (stored_session R)) as [[]|e].
  - rewrite !get_prop_prop by done. reflexivity.
  - unfold rehydrate_handler, bind, logger_call. by destruct (logger s).
Qed.

End Cut.

(** ** The bridge: [ChatInterface.initiateChat] *)

Section Bridge.
Context (env : Env).

Lemma obj_get_set fields k v k' :
  obj_get (obj_set fields k v) k'
  = if String.eqb k k' then Some v else obj_get fields k'.
Proof.
  induction fields as [|[k0 v0] rest IH]; cbn.
  - by destruct (String.eqb k k').
  - destruct (String.eqb_spec k0 k) as [->|Hne]; cbn.
    + by destruct (String.eqb k k').
    + rewrite IH. destruct (String.eqb_spec k0 k') as [->|Hne'].
      * by destruct (String.eqb_spec k k') as [->|].
      * done.
Qed.

Lemma obj_get_fresh (fields : list (string * jsval)) k :
  k ∉ fields.*1 → obj_get fields k = None.
Proof.
  induction fields as [|[k0 v0] rest IH]; cbn; [done|].
  intros Hnot. apply not_elem_of_cons in Hnot as [Hne Hrest].
  destruct (String.eqb_spec k0 k); [congruence | by apply IH].
Qed.

(** Spreading the properties of a source whose keys are distinct: each of
    them overrides the target's. *)
Lemma spread_get (fields target : list (string * jsval)) k :
  NoDup fields.*1 →
  obj_get (fold_left (λ acc kv, obj_set acc kv.1 kv.2) fields target) k
  = match obj_get fields k with
    | Some v => Some v
    | None => obj_get target k
    end.
Proof.
  revert target. induction fields as [|[k0 v0] rest IH]; intros target Hnd; cbn.
  - done.
  - apply NoDup_cons in Hnd as [Hfresh Hnd]. rewrite (IH _ Hnd), obj_get_set.
    cbn. destruct (String.eqb_spec k0 k) as [->|Hne]; [|done].
    by rewrite (obj_get_fresh rest k Hfresh).
Qed.

(** Assigning them: the same, but for [__proto__], which the target keeps
    as it has it. *)
Lemma assign_get (fields target : list (string * jsval)) k :
  NoDup fields.*1 →
  obj_get (fold_left (λ acc kv, if String.eqb kv.1 "__proto__" then acc
                                else obj_set acc kv.1 kv.2) fields target) k
  = if String.eqb k "__proto__" then obj_get target k
    else match obj_get fields k with
         | Some v => Some v
         | None => obj_get target k
         end.
Proof.
  revert target. induction fields as [|[k0 v0] rest IH]; intros target Hnd; cbn.
  - by destruct (String.eqb k "__proto__").
  - apply NoDup_cons in Hnd as [Hfresh Hnd]. rewrite (IH _ Hnd). cbn in Hfresh.
    destruct (String.eqb_spec k "__proto__") as [Hk|Hk].
    + destruct (String.eqb_spec k0 "__proto__") as [Hk0|Hk0]; [done|].
      rewrite obj_get_set. destruct (String.eqb_spec k0 k); congruence.
    + destruct (String.eqb_spec k0 k) as [Hne|Hne].
      * subst k0. rewrite (obj_get_fresh rest k Hfresh).
        destruct (String.eqb_spec k "__proto__"); [done|].
        rewrite obj_get_set. by rewrite String.eqb_refl.
      * destruct (obj_get rest k); [done|].
        destruct (String.eqb k0 "__proto__"); [done|].
        rewrite obj_get_set. by destruct (String.eqb_spec k0 k).
Qed.

(** Host values override the client defaults, property by property; the
    merged object has no [__proto__] property. *)
Lemma merged_config_field fields k :
  NoDup fields.*1 →
  field (merged_config (JObj fields)) k
  = if String.eqb k "__proto__" then None
    else match obj_get fields k with
         | Some v => Some v
         | None => field ChatInterface.clientConfig k
         end.
Proof.
  intros Hnd. unfold merged_config, Object_assign. cbn [fold_left field].
  unfold assign_props at 1. cbn [own_props]. rewrite assign_get by done.
  by destruct (String.eqb_spec k "__proto__") as [->|].
Qed.

(** The [initChat] handler up to its return. *)
Lemma initiateChatSession_run config success failure s :
  nullish config = false →
  initiateChatSession env config success failure s
  = (Ok (Some (AwaitInitiator config (customization_of config) success failure)),
     initiating s, initiation_started env config (logger s)).
Proof.
  intros Hin.
  unfold initiateChatSession, submitChatInitiation_begin, not_awaited, bind, lift,
    logger_guarded, initiation_started, initiating.
  rewrite !get_prop_prop by done. by destruct (logger s).
Qed.

Lemma trigger_initChat payload success failure s :
  nullish payload = false →
  EventBus.trigger env "initChat" payload success failure s
  = (Ok (Some (AwaitInitiator payload (customization_of payload) success failure)),
     initiating s,
     EvTrigger "initChat" payload success failure
     :: initiation_started env payload (logger s)).
Proof.
  intros Hin. unfold EventBus.trigger, bind, emit. cbn [String.eqb Ascii.eqb Bool.eqb].
  by rewrite initiateChatSession_run.
Qed.

Lemma initiateChat_run input success failure s :
  nullish input = false →
  ChatInterface.initiateChat env input success failure s
  = match persistence_of env input with
    | WFalsy => EventBus.trigger env "initChat" (merged_config input) success failure s
    | WObject => (Throw (TypeError "storage.getItem is not a function"), s, [])
    | WLocalStorage | WSessionStorage =>
        let st := match persistence_of env input with
                  | WSessionStorage => Session
                  | _ => Local
                  end in
        match JSON_parse env (item_text st s) with
        | None => (Throw (SyntaxError (item_text st s)), s, [])
        | Some v =>
            if truthy v then
              (Ok None, s,
               [EvTrigger "rehydrateChat" (spread [merged_config input; v])
                  success failure])
            else EventBus.trigger env "initChat" (merged_config input) success failure s
        end
    end.
Proof.
  intros Hin. unfold ChatInterface.initiateChat, persistence_of, bind, lift.
  rewrite get_prop_prop by done. fold (merged_config input).
  destruct (window_get env (prop input "chatPersistence")); cbn;
    unfold item_text; cbn;
    try match goal with |- context [JSON_parse env ?t] =>
          destruct (JSON_parse env t) as [v|]; cbn; [destruct (truthy v)|]
        end;
    rewrite ?trigger_initChat by done; try reflexivity;
    unfold EventBus.trigger, bind, emit; cbn; reflexivity.
Qed.

(** Line 28 has no [try] around it: a stored text that is not valid JSON
    makes [initiateChat] throw to its caller. *)
Lemma initiateChat_malformed input success failure s st text :
  nullish input = false →
  names_store (persistence_of env input) st = true →
  store st s !! storage_key = Some text →
  JSON_parse env text = None →
  ChatInterface.initiateChat env input success failure s
  = (Throw (SyntaxError text), s, []).
Proof.
  intros Hin Hst Htext Hparse. rewrite initiateChat_run by done.
  destruct (persistence_of env input), st; try discriminate; cbv zeta;
    unfold item_text; rewrite Htext; cbn; by rewrite Hparse.
Qed.

Lemma message_listener_run data s :
  nullish data = false →
  ChatInterface.message_listener env data s
  = if truthy (prop data "initChat")
    then ChatInterface.initiateChat env data None None s
    else (Ok None, s, []).
Proof.
  intros Hin. unfold ChatInterface.message_listener, bind, lift.
  rewrite get_prop_prop by done.
  destruct (truthy (prop data "initChat")); [|reflexivity].
  destruct (ChatInterface.initiateChat env data None None s) as [[? ?] ?].
  by destruct o.
Qed.

End Bridge.

(** * The claims *)

Section Claims.
Context (env : Env).

Lemma calm_failure_report failure e :
  Forall (λ ev, async_failure ev = None) (failure_report failure e).
Proof. unfold failure_report. destruct failure; by repeat constructor. Qed.

Lemma untouched_failure_report failure e :
  Forall (λ ev, touches_store ev = false) (failure_report failure e).
Proof. unfold failure_report. destruct failure; by repeat constructor. Qed.

(** A recorded failure is not among actions that record none. *)
Lemma no_failure_among (t : list Event) ev e :
  Forall (λ ev, async_failure ev = None) t → In ev t → async_failure ev = Some e → False.
Proof.
  intros Hall Hin Hev. rewrite Forall_forall in Hall.
  apply list_elem_of_In, Hall in Hin. congruence.
Qed.

(** C1. For every call of [submitChatInitiation] with a configuration and
    continuations, the first action is the [setState] to [Initiating], ahead
    of any asynchronous call; a rejection of the Session Initiator call or
    of the Chat Session open call is recorded by the run; and when the run
    records that either call failed with [e], the status
    ends as [InitiateFailed], both stores are as they were and no action
    touched them, and the run ends with the [setState] to [InitiateFailed]
    followed by the call of [failure] on [e]. *)
Theorem submitChatInitiation_failure_path input success failure s :
  let run := submitChatInitiation env input success failure s in
  (∃ rest, actions run = EvSetState (patch_status Initiating) :: rest) ∧
  (∀ e, nullish input = false → initiateChat env input = Throw e →
        In (EvInitiateChat input (Throw e)) (actions run)) ∧
  (∀ chatDetails e,
     nullish input = false → initiateChat env input = Ok chatDetails →
     nullish chatDetails = false → logger s = true →
     session_open env (fresh_session input chatDetails) = Throw e →
     In (EvOpenChatSession (fresh_session input chatDetails) (Throw e)) (actions run)) ∧
  ∀ ev e, In ev (actions run) → async_failure ev = Some e →
    status (state (final run)) = InitiateFailed ∧
    same_stores s (final run) ∧
    Forall (λ ev, touches_store ev = false) (actions run) ∧
    ∃ before, actions run = before ++ failure_report failure e.
Proof.
  cbv zeta.
  enough ((∃ rest, actions (submitChatInitiation env input success failure s)
                   = EvSetState (patch_status Initiating) :: rest) ∧
          ∀ ev e, In ev (actions (submitChatInitiation env input success failure s)) →
            async_failure ev = Some e →
            status (state (final (submitChatInitiation env input success failure s)))
              = InitiateFailed ∧
            same_stores s (final (submitChatInitiation env input success failure s)) ∧
            Forall (λ ev, touches_store ev = false)
              (actions (submitChatInitiation env input success failure s)) ∧
            ∃ before, actions (submitChatInitiation env input success failure s)
                      = before ++ failure_report failure e) as [Hfirst Hfail].
  { split; [exact Hfirst|]. split; [|split; [|exact Hfail]].
    - intros e Hin Hinit. by apply initiator_failure_recorded.
    - intros chatDetails e Hin Hinit Hcd Hlog Hopen.
      by apply open_failure_recorded. }
  destruct (nullish input) eqn:Hin.
  { destruct (submitChatInitiation_nullish env input success failure s Hin)
      as [msg ->]. split; [by eexists|].
    intros ev e [<-|[]]; discriminate. }
  set (s1 := update_state (apply_patch (patch_status Initiating)) s).
  pose proof (initiation_try_run env input success s1 Hin) as Htry.
  pose proof (submitChatInitiation_run env input success failure s Hin) as Hrun.
  cbv zeta in Hrun. fold s1 in Hrun.
  split; [rewrite Hrun; by eexists|].
  intros ev e Hev Hfail.
  (* the two ways the [try] can fail at an asynchronous step *)
  assert (∀ e0 t,
    initiation_try env input (customization_of input) success s1 = (Throw e0, s1, t) →
    (∀ ev', In ev' (EvSetState (patch_status Initiating) :: t ++ failure_report failure e0) →
            async_failure ev' = Some e → e = e0) →
    Forall (λ ev, touches_store ev = false) t →
    status (state (final (submitChatInitiation env input success failure s)))
      = InitiateFailed ∧
    same_stores s (final (submitChatInitiation env input success failure s)) ∧
    Forall (λ ev, touches_store ev = false)
      (actions (submitChatInitiation env input success failure s)) ∧
    ∃ before, actions (submitChatInitiation env input success failure s)
              = before ++ failure_report failure e) as Hcaught.
  { intros e0 t Ht Huniq Hquiet.
    destruct (submitChatInitiation_caught env input success failure s e0 t Hin Ht)
      as (Hst & Hsame & Hact).
    rewrite Hact in Hev. rewrite (Huniq ev Hev Hfail) in *.
    repeat split; try done; try apply Hsame.
    - rewrite Hact. constructor; [done|]. apply Forall_app. split; [done|].
      apply untouched_failure_report.
    - exists (EvSetState (patch_status Initiating) :: t). by rewrite Hact. }
  destruct (initiateChat env input) as [chatDetails|e0] eqn:Hinit.
  2:{ apply (Hcaught e0 _ Htry); [|by repeat constructor].
      intros ev' [<-|[<-|Hin']] Hf; try discriminate; [by injection Hf|].
      by destruct (no_failure_among _ _ _ (calm_failure_report failure e0) Hin' Hf). }
  destruct (logger s1) eqn:Hlog.
  2:{ exfalso. rewrite Hrun, (try_catch_throw _ _ _ _ _ _ Htry), initiation_catch_run in Hev.
      cbn in Hev. destruct Hev as [<-|[<-|Hin']]; try discriminate.
      by destruct (no_failure_among _ _ _ (calm_failure_report _ _) Hin' Hfail). }
  destruct (get_prop chatDetails "startChatResult") as [scr|e0].
  2:{ exfalso. rewrite Hrun, (try_catch_throw _ _ _ _ _ _ Htry), initiation_catch_run in Hev.
      cbn in Hev. destruct Hev as [<-|[<-|[<-|Hin']]]; try discriminate.
      by destruct (no_failure_among _ _ _ (calm_failure_report _ _) Hin' Hfail). }
  destruct (session_open env (fresh_session input chatDetails)) as [[]|e0] eqn:Hopen.
  2:{ apply (Hcaught e0 _ Htry); [|unfold handshake; by repeat constructor].
      unfold handshake. rewrite Hopen.
      intros ev' [<-|[<-|[<-|[<-|[<-|[<-|Hin']]]]]] Hf; try discriminate;
        [by injection Hf|].
      by destruct (no_failure_among _ _ _ (calm_failure_report failure e0) Hin' Hf). }
  (* both calls succeeded: nothing recorded is a failure of theirs *)
  exfalso. cbv zeta in Htry.
  pose proof (quiet_finish_initiation env input chatDetails (customization_of input)
                (fresh_session input chatDetails) success s1) as Hquiet.
  assert (Forall (λ ev, async_failure ev = None)
            (handshake env input chatDetails)) as Hhand.
  { unfold handshake. rewrite Hopen. by repeat constructor. }
  destruct (finish_initiation env input chatDetails (customization_of input)
              (fresh_session input chatDetails) success s1) as [[[[]|e1] s2] t2];
    cbn in Htry, Hquiet.
  - rewrite Hrun, (try_catch_ok _ _ _ _ _ _ Htry) in Hev. cbn in Hev.
    destruct Hev as [<-|Hin']; [discriminate|].
    apply (no_failure_among _ ev e (proj2 (Forall_app _ _ _) (conj Hhand Hquiet)) Hin' Hfail).
  - rewrite Hrun, (try_catch_throw _ _ _ _ _ _ Htry), initiation_catch_run in Hev.
    cbn in Hev. destruct Hev as [<-|Hin']; [discriminate|].
    rewrite <- app_assoc in Hin'.
    refine (no_failure_among _ ev e _ Hin' Hfail).
    repeat (apply Forall_app; split); auto using calm_failure_report.
Qed.

(** C2, as amended. With a logger in place, for every text the method reads
    (the local store's when it holds a non-empty one) that parses to a
    record whose [chatDetails.startChatResult] has a truthy [ContactId] and a
    truthy [ParticipantId], when the open call of the session built from the
    stored [chatDetails], [displayName], [region], [stage] and
    [customizationParams] succeeds, the method opens that session and ends
    with status [Initiated], [composerConfig] and [language] equal to the
    record's, the stores untouched. *)
Theorem rehydrate_valid_record s text R :
  logger s = true →
  read_chatSessionData s = Some text →
  JSON_parse env text = Some R →
  valid_record R = true →
  session_open env (stored_session R) = Ok tt →
  let run := checkAndRehydrateChat env s in
  (∀ local, localStorage s !! storage_key = Some local → local ≠ "" → text = local) ∧
  result_of run = Ok tt ∧
  actions run = opening env R ++ [EvSetState (rehydrated_patch R)] ∧
  status (state (final run)) = Initiated ∧
  composerConfig (state (final run)) = prop R "composerConfig" ∧
  language (state (final run)) = prop R "language" ∧
  chatSession (state (final run)) = Some (stored_session R) ∧
  same_stores s (final run).
Proof.
  intros Hlog Hread Hparse Hvalid Hopen. cbv zeta.
  pose proof (body_valid env s text R Hparse Hvalid Hlog) as Hbody.
  rewrite Hopen in Hbody.
  rewrite (rehydrate_returned env s text _ _ Hread Hbody).
  split; [|by repeat split].
  intros local Hlocal Hne.
  pose proof (read_prefers_local s local Hlocal Hne). congruence.
Qed.

(** C3, as amended. With a logger in place, for every text the method reads
    (a non-empty one, from the local store or else from the session store)
    that is not valid JSON, the method removes the key from both stores,
    sets the status to [NotInitiated] and returns normally. *)
Theorem rehydrate_malformed_text s text :
  logger s = true →
  read_chatSessionData s = Some text →
  JSON_parse env text = None →
  let run := checkAndRehydrateChat env s in
  result_of run = Ok tt ∧
  stores_cleared s (final run) ∧
  ¬ holds_record (localStorage (final run)) ∧
  ¬ holds_record (sessionStorage (final run)) ∧
  status (state (final run)) = NotInitiated ∧
  actions run = recovery.
Proof.
  intros Hlog Hread Hparse. cbv zeta.
  rewrite (rehydrate_caught env s text _ _ Hread (body_malformed env s text Hparse) Hlog).
  cbn. repeat split; auto using holds_record_delete.
Qed.

(** What the amended C3 leaves out: without a logger the [catch] itself
    throws at line 107, before removing anything. *)
Lemma malformed_text_without_logger s text :
  logger s = false →
  read_chatSessionData s = Some text →
  JSON_parse env text = None →
  checkAndRehydrateChat env s
  = (Throw (TypeError "Cannot read properties of undefined"), s, []).
Proof.
  intros Hlog Hread Hparse.
  apply (rehydrate_uncaught env s text _ _ Hread (body_malformed env s text Hparse) Hlog).
Qed.

Lemma not_open_failure_recovery cs e : ¬ In (EvOpenChatSession cs (Throw e)) recovery.
Proof. unfold recovery. intros [H|[H|[H|[H|[]]]]]; discriminate. Qed.

(** C6, as amended. Whenever a run of the method records that the open call
    was rejected, the rejection has been caught by the [catch] of line 106:
    the method returns normally, the status is [NotInitiated] (never
    [InitiateFailed]), the key is removed from both stores, the in-memory
    session is as before, and the run ends with the actions of the [catch]
    and of line 113. *)
Theorem rehydrate_open_failure s cs e :
  let run := checkAndRehydrateChat env s in
  In (EvOpenChatSession cs (Throw e)) (actions run) →
  result_of run = Ok tt ∧
  status (state (final run)) = NotInitiated ∧
  status (state (final run)) ≠ InitiateFailed ∧
  stores_cleared s (final run) ∧
  chatSession (state (final run)) = chatSession (state s) ∧
  ∃ before, actions run = before ++ recovery.
Proof.
  cbv zeta.
  destruct (read_chatSessionData s) as [text|] eqn:Hread.
  2:{ rewrite (rehydrate_absent env s Hread). intros [H|[]]; discriminate. }
  assert (∀ e0 t, rehydrate_body env text s = (Throw e0, s, t) →
            ¬ In (EvOpenChatSession cs (Throw e)) t →
            In (EvOpenChatSession cs (Throw e)) (actions (checkAndRehydrateChat env s)) →
            False) as Hno.
  { intros e0 t Hbody Hnot. destruct (logger s) eqn:Hlog.
    - rewrite (rehydrate_caught env s text _ _ Hread Hbody Hlog). cbn.
      intros [?|?%not_open_failure_recovery]%in_app_or; done.
    - by rewrite (rehydrate_uncaught env s text _ _ Hread Hbody Hlog). }
  destruct (JSON_parse env text) as [R|] eqn:Hparse.
  2:{ intros H. exfalso.
      apply (Hno _ _ (body_malformed env s text Hparse)); [intros [] | exact H]. }
  destruct (nullish R) eqn:Hnull.
  { destruct (body_nullish env s text R Hparse Hnull) as [msg Hbody].
    intros H. exfalso. apply (Hno _ _ Hbody); [intros [] | exact H]. }
  destruct (valid_record R) eqn:Hvalid.
  2:{ rewrite (rehydrate_skipped env s text Hread
                 (body_invalid env s text R Hparse Hnull Hvalid)).
      intros [H|[]]; discriminate. }
  destruct (logger s) eqn:Hlog.
  2:{ intros H. exfalso.
      apply (Hno _ _ (body_no_logger env s text R Hparse Hvalid Hlog));
        [intros [] | exact H]. }
  pose proof (body_valid env s text R Hparse Hvalid Hlog) as Hbody.
  destruct (session_open env (stored_session R)) as [[]|e0] eqn:Hopen.
  - rewrite (rehydrate_returned env s text _ _ Hread Hbody). cbn.
    unfold opening. rewrite Hopen.
    intros [H|[H|[H|[H|[H|[H|[]]]]]]]; try discriminate.
  - rewrite (rehydrate_caught env s text _ _ Hread Hbody Hlog). cbn.
    intros _. repeat split; try done. by exists (opening env R).
Qed.

(** The premise of the amended C6 is met whenever the transport rejects
    the session of a valid record. *)
Lemma open_rejection_recorded s text R e :
  logger s = true →
  read_chatSessionData s = Some text →
  JSON_parse env text = Some R →
  valid_record R = true →
  session_open env (stored_session R) = Throw e →
  In (EvOpenChatSession (stored_session R) (Throw e))
     (actions (checkAndRehydrateChat env s)).
Proof.
  intros Hlog Hread Hparse Hvalid Hopen.
  pose proof (body_valid env s text R Hparse Hvalid Hlog) as Hbody.
  rewrite Hopen in Hbody.
  rewrite (rehydrate_caught env s text _ _ Hread Hbody Hlog). cbn.
  rewrite Hopen. do 4 right. by left.
Qed.

(** C10, as amended. For every text the method reads that parses to a value
    other than [null] and lacks a truthy [chatDetails], [startChatResult],
    [ContactId] or [ParticipantId], the method only sets the status to
    [NotInitiated]: no session is constructed or opened and both stores are
    as they were. *)
Theorem rehydrate_invalid_record s text R :
  read_chatSessionData s = Some text →
  JSON_parse env text = Some R →
  nullish R = false →
  valid_record R = false →
  let run := checkAndRehydrateChat env s in
  result_of run = Ok tt ∧
  actions run = [EvSetState (patch_status NotInitiated)] ∧
  status (state (final run)) = NotInitiated ∧
  same_stores s (final run).
Proof.
  intros Hread Hparse Hnull Hvalid. cbv zeta.
  rewrite (rehydrate_skipped env s text Hread
             (body_invalid env s text R Hparse Hnull Hvalid)).
  by repeat split.
Qed.

(** What happens to a stored [null]: line 84 throws inside the [try], and
    with a logger in place the [catch] removes the key from both stores. *)
Lemma rehydrate_null_record s text R :
  logger s = true →
  read_chatSessionData s = Some text →
  JSON_parse env text = Some R →
  nullish R = true →
  checkAndRehydrateChat env s = (Ok tt, cleared_not_initiated s, recovery).
Proof.
  intros Hlog Hread Hparse Hnull.
  destruct (body_nullish env s text R Hparse Hnull) as [msg Hbody].
  apply (rehydrate_caught env s text _ _ Hread Hbody Hlog).
Qed.

(** What the amended C2 leaves out: without a logger line 87 throws inside
    the [try] and line 107 throws in the [catch]; nothing is opened and the
    status stays as it was. *)
Lemma valid_record_without_logger s text R :
  logger s = false →
  read_chatSessionData s = Some text →
  JSON_parse env text = Some R →
  valid_record R = true →
  checkAndRehydrateChat env s
  = (Throw (TypeError "Cannot read properties of undefined"), s, []).
Proof.
  intros Hlog Hread Hparse Hvalid.
  apply (rehydrate_uncaught env s text _ _ Hread
           (body_no_logger env s text R Hparse Hvalid Hlog) Hlog).
Qed.

(** Without a logger a fresh initiation fails even when the Session
    Initiator succeeds: line 167 throws inside the [try], before the session
    is opened. *)
Lemma initiation_without_logger input chatDetails success failure s :
  nullish input = false →
  logger s = false →
  initiateChat env input = Ok chatDetails →
  let run := submitChatInitiation env input success failure s in
  status (state (final run)) = InitiateFailed ∧
  same_stores s (final run) ∧
  actions run
  = EvSetState (patch_status Initiating)
    :: EvInitiateChat input (Ok chatDetails)
    :: failure_report failure (TypeError "Cannot read properties of undefined").
Proof.
  intros Hin Hlog Hinit.
  apply (submitChatInitiation_caught env input success failure s _
           [EvInitiateChat input (Ok chatDetails)] Hin).
  rewrite initiation_try_run by done. rewrite Hinit. cbn. by rewrite Hlog.
Qed.

(** C5. After [resetState], whatever the state before, neither store holds
    a value under the session-record key (every other key is as it was), the
    status is [NotInitiated] and the in-memory session is [null]. *)
Theorem resetState_clears s :
  let run := resetState s in
  result_of run = Ok tt ∧
  ¬ holds_record (localStorage (final run)) ∧
  ¬ holds_record (sessionStorage (final run)) ∧
  stores_cleared s (final run) ∧
  status (state (final run)) = NotInitiated ∧
  chatSession (state (final run)) = None.
Proof.
  cbv zeta. destruct (resetState_run s) as (Hr & [Hl Hs] & _ & Hst).
  rewrite Hr, Hst. repeat split; try done.
  - rewrite Hl. apply holds_record_delete.
  - rewrite Hs. apply holds_record_delete.
Qed.


(** C9, as amended. Calling [saveChatSession] twice with the same arguments
    leaves the stores as the first call left them, with the same result; the
    stores then hold exactly one record, in the store the persistence mode
    names, when the mode names one and the record can be built, and no
    record otherwise. *)
Theorem saveChatSession_idempotent fields chatDetails customizationParams s :
  let input := JObj fields in
  let first := saveChatSession env input chatDetails customizationParams s in
  let second := saveChatSession env input chatDetails customizationParams (final first) in
  same_stores (final first) (final second) ∧
  result_of second = result_of first ∧
  match persistence_of env input,
        chatSessionData_of env input chatDetails customizationParams with
  | WLocalStorage, Ok data =>
      localStorage (final second) !! storage_key = Some (JSON_stringify env data) ∧
      sessionStorage (final second) !! storage_key = None ∧
      exactly_one_record (final second)
  | WSessionStorage, Ok data =>
      localStorage (final second) !! storage_key = None ∧
      sessionStorage (final second) !! storage_key = Some (JSON_stringify env data) ∧
      exactly_one_record (final second)
  | _, _ =>
      localStorage (final second) !! storage_key = None ∧
      sessionStorage (final second) !! storage_key = None ∧
      ¬ exactly_one_record (final second)
  end.
Proof.
  cbv zeta.
  pose proof (saveChatSession_run env (JObj fields) chatDetails customizationParams s
                eq_refl) as H1.
  pose proof (saveChatSession_run env (JObj fields) chatDetails customizationParams
                (final (saveChatSession env (JObj fields) chatDetails
                          customizationParams s)) eq_refl) as H2.
  cbv zeta in H1, H2.
  destruct H1 as (_ & _ & H1), H2 as (_ & _ & H2).
  unfold same_stores, exactly_one_record, holds_record, stores_cleared in *.
  destruct (persistence_of env (JObj fields)),
    (chatSessionData_of env (JObj fields) chatDetails customizationParams);
    destruct H1 as (-> & _ & Hl1 & Hs1), H2 as (-> & _ & -> & ->);
    rewrite Hl1, Hs1, ?delete_after_write, ?delete_twice,
      ?lookup_insert_eq, ?lookup_delete_eq;
    repeat split; try done;
    try (left; split; [by eexists | by intros [? ?]]);
    try (right; split; [by intros [? ?] | by eexists]);
    by intros [[[? ?] _]|[_ [? ?]]].
Qed.

(** C8 fails on the code.  A message posted to the window reaches the
    listener as an event whose [data] is the payload; the listener tests
    [initChat] on the event itself, which no message event has, so it does
    nothing, whatever the payload: [ChatInterface.initiateChat] is not
    called and nothing is triggered.  Called on the configuration
    [payload.initChat] itself, [initiateChat] does what the claim says: the
    configuration is merged over the client defaults, its values
    overriding them, and when no persisted record is found [initChat] is
    triggered with the merged object and the continuations, which starts
    the initiation. *)
Theorem posted_message_is_ignored payload origin success failure s :
  let config := prop payload "initChat" in
  ChatInterface.message_listener env (message_event payload origin) s
  = (Ok None, s, []) ∧
  (nullish config = false → field config "__proto__" = None →
   no_record_found env config s →
   ChatInterface.initiateChat env config success failure s
   = (Ok (Some (AwaitInitiator (merged_config config)
                  (customization_of (merged_config config)) success failure)),
      initiating s,
      EvTrigger "initChat" (merged_config config) success failure
      :: initiation_started env (merged_config config) (logger s))) ∧
  (∀ fields, config = JObj fields → NoDup fields.*1 →
             obj_get fields "__proto__" = None →
             ∀ k, field (merged_config config) k
                  = match obj_get fields k with
                    | Some v => Some v
                    | None => field ChatInterface.clientConfig k
                    end).
Proof.
  cbv zeta. split; [|split].
  - by rewrite message_listener_run.
  - intros Hin _. unfold no_record_found. rewrite initiateChat_run by done.
    destruct (persistence_of env (prop payload "initChat")); cbv zeta.
    + intros (v & -> & ->). by apply trigger_initChat.
    + intros (v & -> & ->). by apply trigger_initChat.
    + intros _. by apply trigger_initChat.
    + done.
  - intros fields -> Hnd Hproto k. rewrite merged_config_field by done.
    destruct (String.eqb_spec k "__proto__") as [Hk|Hk]; [|done].
    subst k. by rewrite Hproto.
Qed.

End Claims.

(** * The claims on a concrete page *)

(** The scenario of a successful initiation: the statuses go from
    [NotInitiated] through [Initiating] to [Initiated], the local store
    holds a record and the session store none; rehydrating from that record
    opens the same [chatDetails]. *)
Example initiation_scenario :
  let run := submitChatInitiation all_up sample_config (Some "onSuccess")
               (Some "onFailure") (page ∅ ∅ true) in
  result_of run = Ok tt ∧
  status (state (final run)) = Initiated ∧
  holds_record (localStorage (final run)) ∧
  sessionStorage (final run) !! storage_key = None ∧
  status (state (final (checkAndRehydrateChat all_up
                          (page (localStorage (final run)) ∅ true)))) = Initiated.
Proof.
  cbv zeta. repeat split; try (vm_compute; reflexivity).
  vm_compute. by eexists.
Qed.

(** Two runs for C1: the Session Initiator rejects with [NetworkError];
    the open call does. *)
Lemma submitChatInitiation_failure_path_witness :
  let run := submitChatInitiation initiator_down sample_config (Some "onSuccess")
               (Some "onFailure") (page ∅ ∅ true) in
  let run' := submitChatInitiation transport_down sample_config (Some "onSuccess")
                (Some "onFailure") (page ∅ ∅ true) in
  actions run
  = [EvSetState (patch_status Initiating);
     EvInitiateChat sample_config (Throw network_error);
     EvSetState (patch_status InitiateFailed);
     EvInvoke "onFailure" (ArgError network_error)] ∧
  status (state (final run)) = InitiateFailed ∧
  same_stores (page ∅ ∅ true) (final run) ∧
  status (state (final run')) = InitiateFailed ∧
  same_stores (page ∅ ∅ true) (final run') ∧
  Forall (λ ev, touches_store ev = false) (actions run').
Proof.
  cbv zeta. split; [vm_compute; reflexivity|].
  destruct (submitChatInitiation_failure_path initiator_down sample_config
              (Some "onSuccess") (Some "onFailure") (page ∅ ∅ true))
    as (_ & Hrec & _ & H).
  destruct (submitChatInitiation_failure_path transport_down sample_config
              (Some "onSuccess") (Some "onFailure") (page ∅ ∅ true))
    as (_ & _ & Hrec' & H').
  destruct (H _ network_error (Hrec network_error eq_refl eq_refl) eq_refl)
    as (Hst & Hsame & _).
  destruct (H' _ network_error
              (Hrec' sample_details network_error eq_refl eq_refl eq_refl eq_refl eq_refl)
              eq_refl) as (Hst' & Hsame' & Hquiet & _).
  repeat split; (assumption || apply Hsame || apply Hsame').
Defined.

(** A run for the amended C2: a valid record in the local store. *)
Lemma rehydrate_valid_record_witness :
  let run := checkAndRehydrateChat all_up
               (page (stored (Json.print sample_record)) ∅ true) in
  result_of run = Ok tt ∧
  status (state (final run)) = Initiated ∧
  composerConfig (state (final run)) = prop sample_record "composerConfig" ∧
  language (state (final run)) = JStr "fr_FR".
Proof.
  cbv zeta.
  destruct (rehydrate_valid_record all_up
              (page (stored (Json.print sample_record)) ∅ true)
              (Json.print sample_record) sample_record)
    as (_ & Hres & _ & Hst & Hcc & Hlang & _); try (vm_compute; reflexivity).
  repeat split; assumption.
Defined.

(** C2 as stated fails: the stored record has both identifiers, the
    [ContactId] being the empty string, and the open call would succeed; the
    method opens nothing and the status is [NotInitiated]. *)
Lemma rehydrate_empty_contact_counterexample :
  let R := record_with (JStr "") in
  let run := checkAndRehydrateChat all_up (page (stored (Json.print R)) ∅ true) in
  JSON_parse all_up (Json.print R) = Some R ∧
  contains_ids R ∧
  session_open all_up (stored_session R) = Ok tt ∧
  result_of run = Ok tt ∧
  actions run = [EvSetState (patch_status NotInitiated)] ∧
  status (state (final run)) = NotInitiated ∧
  status (state (final run)) ≠ Initiated.
Proof.
  cbv zeta. split; [vm_compute; reflexivity|]. split.
  { eexists _, _. repeat split; try (by eexists); reflexivity. }
  repeat split; try (vm_compute; reflexivity).
  vm_compute. discriminate.
Qed.

(** A valid record in the session store is not read either while the local
    store holds any non-empty text. *)
Lemma rehydrate_shadowed_record :
  let s := page (stored "5") (stored (Json.print sample_record)) true in
  let run := checkAndRehydrateChat all_up s in
  JSON_parse all_up (Json.print sample_record) = Some sample_record ∧
  valid_record sample_record = true ∧
  actions run = [EvSetState (patch_status NotInitiated)] ∧
  status (state (final run)) = NotInitiated.
Proof. cbv zeta. repeat split; vm_compute; reflexivity. Qed.

(** A run for the amended C3: malformed texts in both stores. *)
Lemma rehydrate_malformed_text_witness :
  let run := checkAndRehydrateChat all_up
               (page (stored "{not json") (stored "[1,") true) in
  result_of run = Ok tt ∧
  localStorage (final run) !! storage_key = None ∧
  sessionStorage (final run) !! storage_key = None ∧
  status (state (final run)) = NotInitiated.
Proof.
  cbv zeta.
  destruct (rehydrate_malformed_text all_up
              (page (stored "{not json") (stored "[1,") true) "{not json")
    as (Hres & [Hl Hs] & _ & _ & Hst & _); try (vm_compute; reflexivity).
  rewrite Hl, Hs. repeat split; try assumption; apply lookup_delete_eq.
Defined.

(** C3 as stated fails: the empty text is not valid JSON, it is stored
    under the key, and the method leaves it there. *)
Lemma rehydrate_empty_text_counterexample :
  let run := checkAndRehydrateChat all_up (page (stored "") ∅ true) in
  JSON_parse all_up "" = None ∧
  result_of run = Ok tt ∧
  localStorage (final run) !! storage_key = Some "" ∧
  actions run = [EvSetState (patch_status NotInitiated)].
Proof. cbv zeta. repeat split; vm_compute; reflexivity. Qed.

(** A run for the amended C6: the transport is down. *)
Lemma rehydrate_open_failure_witness :
  let run := checkAndRehydrateChat transport_down
               (page (stored (Json.print sample_record)) ∅ true) in
  result_of run = Ok tt ∧
  status (state (final run)) = NotInitiated ∧
  localStorage (final run) !! storage_key = None.
Proof.
  cbv zeta.
  destruct (rehydrate_open_failure transport_down
              (page (stored (Json.print sample_record)) ∅ true)
              (stored_session sample_record) network_error)
    as (Hres & Hst & _ & [Hl _] & _).
  - vm_compute. do 4 right. left. reflexivity.
  - rewrite Hl. repeat split; try assumption; apply lookup_delete_eq.
Defined.

(** C6 as stated fails: the rejection of the open call does not leave the
    method; it is handled like a parse failure. *)
Lemma rehydrate_open_failure_counterexample :
  let s := page (stored (Json.print sample_record)) ∅ true in
  let run := checkAndRehydrateChat transport_down s in
  session_open transport_down (stored_session sample_record) = Throw network_error ∧
  In (EvOpenChatSession (stored_session sample_record) (Throw network_error))
     (actions run) ∧
  result_of run = Ok tt ∧
  result_of run ≠ Throw network_error ∧
  localStorage s !! storage_key = Some (Json.print sample_record) ∧
  localStorage (final run) !! storage_key = None ∧
  status (state (final run)) = NotInitiated.
Proof.
  cbv zeta. repeat split; try (vm_compute; reflexivity).
  - vm_compute. do 4 right. left. reflexivity.
  - vm_compute. discriminate.
Qed.

(** C7 fails on the code: with a malformed text in the store the
    configuration names, [ChatInterface.initiateChat] throws the parse error
    to its caller and triggers nothing; so does the [message] listener. *)
Theorem bridge_parse_error_escapes :
  let s := page (stored "{not json") ∅ true in
  ChatInterface.initiateChat all_up sample_config (Some "onSuccess") (Some "onFailure") s
  = (Throw (SyntaxError "{not json"), s, []) ∧
  ChatInterface.message_listener all_up
    (JObj [("initChat", JBool true); ("chatPersistence", JStr "localStorage")]) s
  = (Throw (SyntaxError "{not json"), s, []).
Proof.
  cbv zeta. split.
  - apply (initiateChat_malformed all_up sample_config _ _ _ Local);
      vm_compute; reflexivity.
  - rewrite message_listener_run by reflexivity.
    match goal with |- (if ?b then _ else _) = _ => change b with true end. cbv iota.
    apply (initiateChat_malformed all_up _ _ _ _ Local); vm_compute; reflexivity.
Qed.

(** The failing input of C8: a host posts [{initChat: config}].  The
    listener ignores the message, on a page where handing the same
    configuration to [initiateChat] starts the initiation with the merged
    configuration, the host's region overriding the default one. *)
Lemma posted_message_is_ignored_witness :
  let config := JObj [("contactFlowId", JStr "cf1"); ("instanceId", JStr "i1");
                      ("region", JStr "us-east-1")] in
  let payload := JObj [("initChat", config)] in
  let s := page ∅ ∅ true in
  ChatInterface.message_listener all_up (message_event payload "https://host.example") s
  = (Ok None, s, []) ∧
  status (state (final (ChatInterface.initiateChat all_up config None None s)))
  = Initiating ∧
  actions (ChatInterface.initiateChat all_up config None None s)
  = EvTrigger "initChat" (merged_config config) None None
    :: initiation_started all_up (merged_config config) true ∧
  field (merged_config config) "region" = Some (JStr "us-east-1") ∧
  field (merged_config config) "stage" = Some (JStr "prod").
Proof.
  cbv zeta.
  set (config := JObj [("contactFlowId", JStr "cf1"); ("instanceId", JStr "i1");
                       ("region", JStr "us-east-1")]).
  destruct (posted_message_is_ignored all_up (JObj [("initChat", config)])
              "https://host.example" None None (page ∅ ∅ true))
    as (Hlistener & Hdirect & Hmerged).
  cbv zeta in Hdirect, Hmerged.
  change (prop (JObj [("initChat", config)]) "initChat") with config in Hdirect, Hmerged.
  split; [exact Hlistener|].
  rewrite (Hdirect eq_refl eq_refl I).
  split; [reflexivity|]. split; [reflexivity|].
  assert (NoDup [("contactFlowId", JStr "cf1"); ("instanceId", JStr "i1");
                 ("region", JStr "us-east-1")].*1) as Hnd.
  { apply (bool_decide_unpack _). vm_compute. reflexivity. }
  split.
  - exact (Hmerged _ eq_refl Hnd eq_refl "region").
  - exact (Hmerged _ eq_refl Hnd eq_refl "stage").
Defined.


(** C9 as stated fails: with no persistence mode, calling
    [saveChatSession] twice leaves no record at all, even over a store that
    held one. *)
Lemma saveChatSession_no_mode_counterexample :
  let config := JObj [("region", JStr "us-east-1")] in
  let s := page (stored (Json.print sample_record)) ∅ true in
  let first := saveChatSession all_up config sample_details (JObj []) s in
  let second := saveChatSession all_up config sample_details (JObj []) (final first) in
  result_of first = Ok tt ∧
  result_of second = Ok tt ∧
  localStorage (final second) !! storage_key = None ∧
  sessionStorage (final second) !! storage_key = None ∧
  ¬ exactly_one_record (final second).
Proof.
  cbv zeta. repeat split; try (vm_compute; reflexivity).
  intros [[[x Hx] _]|[_ [x Hx]]]; vm_compute in Hx; discriminate.
Qed.

(** A run for the amended C10: a record without a [ParticipantId]. *)
Lemma rehydrate_invalid_record_witness :
  let R := JObj [("chatDetails",
                   JObj [("startChatResult", JObj [("ContactId", JStr "c1")])])] in
  let s := page (stored (Json.print R)) (stored (Json.print R)) true in
  let run := checkAndRehydrateChat all_up s in
  result_of run = Ok tt ∧
  status (state (final run)) = NotInitiated ∧
  localStorage (final run) = localStorage s ∧
  sessionStorage (final run) = sessionStorage s.
Proof.
  cbv zeta.
  destruct (rehydrate_invalid_record all_up
              (page (stored (Json.print (JObj [("chatDetails",
                   JObj [("startChatResult", JObj [("ContactId", JStr "c1")])])])))
                 (stored (Json.print (JObj [("chatDetails",
                   JObj [("startChatResult", JObj [("ContactId", JStr "c1")])])])))
                 true)
              (Json.print (JObj [("chatDetails",
                   JObj [("startChatResult", JObj [("ContactId", JStr "c1")])])]))
              (JObj [("chatDetails",
                   JObj [("startChatResult", JObj [("ContactId", JStr "c1")])])]))
    as (Hres & _ & Hst & [Hl Hs]); try (vm_compute; reflexivity).
  repeat split; assumption.
Defined.

(** C10 as stated fails: the text [null] is valid JSON and has no
    [chatDetails]; line 84 throws inside the [try] and the [catch] removes
    the key from both stores. *)
Lemma rehydrate_null_counterexample :
  let s := page (stored "null") (stored "null") true in
  let run := checkAndRehydrateChat all_up s in
  JSON_parse all_up "null" = Some JNull ∧
  valid_record JNull = false ∧
  result_of run = Ok tt ∧
  status (state (final run)) = NotInitiated ∧
  localStorage s !! storage_key = Some "null" ∧
  localStorage (final run) !! storage_key = None ∧
  sessionStorage (final run) !! storage_key = None.
Proof. cbv zeta. repeat split; vm_compute; reflexivity. Qed.

(** * Further properties of the component and of the bridge *)

Arguments flag_of : simpl never.
Arguments attachments_of : simpl never.
Arguments rich_of : simpl never.
Arguments composer_of : simpl never.
Arguments session_record : simpl never.
Arguments initiated_patch : simpl never.
Arguments completion : simpl never.
Arguments with_record : simpl never.

(** ** A fresh initiation, once both awaited calls have succeeded *)

Section Completion.
Context (env : Env).

Lemma feature_flag_value o :
  nullish o = false → feature_flag env o = Ok (flag_of env o).
Proof.
  intros Ho. unfold feature_flag, flag_of. rewrite get_prop_prop by done.
  destruct (truthy (prop o "featurePermissions")) eqn:Hfp; [|done].
  by rewrite get_prop_prop by by apply truthy_not_nullish.
Qed.

Lemma attachmentsEnabled_value input chatDetails :
  nullish input = false → nullish chatDetails = false →
  attachmentsEnabled env input chatDetails = Ok (attachments_of env input chatDetails).
Proof.
  intros Hin Hcd. unfold attachmentsEnabled, attachments_of, js_or.
  rewrite !feature_flag_value by done.
  by destruct (truthy (flag_of env input)).
Qed.

Lemma richMessagingEnabled_value input :
  nullish input = false → richMessagingEnabled env input = Ok (rich_of env input).
Proof.
  intros Hin. unfold richMessagingEnabled, rich_of. rewrite get_prop_prop by done.
  by destruct (prop input "supportedMessagingContentTypes").
Qed.

Lemma chatSessionData_of_value input chatDetails :
  nullish input = false → nullish chatDetails = false →
  chatSessionData_of env input chatDetails (customization_of input)
  = Ok (session_record env input chatDetails).
Proof.
  intros Hin Hcd. unfold chatSessionData_of.
  rewrite !get_prop_prop, attachmentsEnabled_value, richMessagingEnabled_value by done.
  reflexivity.
Qed.

(** Lines 171-188 after the record has been dealt with. *)
Lemma finish_initiation_run input chatDetails success s :
  nullish input = false → nullish chatDetails = false →
  let saved := saveChatSession env input chatDetails (customization_of input) s in
  finish_initiation env input chatDetails (customization_of input)
    (fresh_session input chatDetails) success s
  = match result_of saved with
    | Throw e => (Throw e, final saved, actions saved)
    | Ok _ =>
        (success_result env input chatDetails success,
         update_state (apply_patch (initiated_patch env input chatDetails)) (final saved),
         actions saved ++ completion env input chatDetails success)
    end.
Proof.
  intros Hin Hcd. cbv zeta.
  unfold finish_initiation, bind, lift, emit, setState, result_of, final, actions.
  destruct (saveChatSession env input chatDetails (customization_of input) s)
    as [[[[]|e] s1] t1]; cbn [fst snd]; [|reflexivity].
  rewrite attachmentsEnabled_value, richMessagingEnabled_value, get_prop_prop by done.
  fold (composer_of env input chatDetails).
  fold (initiated_patch env input chatDetails).
  unfold success_result, completion, call_if_set, bind, emit, lift.
  destruct success as [f|]; cbn; [|reflexivity].
  by destruct (invoke env f (ArgSession (fresh_session input chatDetails))) as [[]|].
Qed.

(** The whole method, once the Session Initiator and the open call have
    succeeded. *)
Lemma submit_after_handshake input chatDetails success failure s :
  nullish input = false →
  initiateChat env input = Ok chatDetails →
  nullish chatDetails = false →
  logger s = true →
  session_open env (fresh_session input chatDetails) = Ok tt →
  let s1 := update_state (apply_patch (patch_status Initiating)) s in
  let fin := finish_initiation env input chatDetails (customization_of input)
               (fresh_session input chatDetails) success s1 in
  submitChatInitiation env input success failure s
  = match result_of fin with
    | Ok _ =>
        (Ok tt, final fin,
         EvSetState (patch_status Initiating)
         :: handshake env input chatDetails ++ actions fin)
    | Throw e =>
        (match failure with Some f => invoke env f (ArgError e) | None => Ok tt end,
         update_state (apply_patch (patch_status InitiateFailed)) (final fin),
         EvSetState (patch_status Initiating)
         :: (handshake env input chatDetails ++ actions fin) ++ failure_report failure e)
    end.
Proof.
  intros Hin Hinit Hcd Hlog Hopen. cbv zeta.
  rewrite submitChatInitiation_run by done. cbv zeta.
  pose proof (initiation_try_run env input success
                (update_state (apply_patch (patch_status Initiating)) s) Hin) as Htry.
  rewrite Hinit in Htry. cbn [logger update_state] in Htry.
  rewrite Hlog, (get_prop_prop chatDetails), Hopen in Htry by done.
  cbv zeta in Htry.
  destruct (result_of (finish_initiation env input chatDetails (customization_of input)
                         (fresh_session input chatDetails) success
                         (update_state (apply_patch (patch_status Initiating)) s)))
    as [[]|e] eqn:Hres.
  - by rewrite (try_catch_ok _ _ _ _ _ _ Htry).
  - by rewrite (try_catch_throw _ _ _ _ _ _ Htry), initiation_catch_run.
Qed.

End Completion.

(** ** What a fresh initiation does in each of its cases *)

Section InitiationCases.
Context (env : Env).

Lemma handshake_untouched input chatDetails :
  Forall (λ ev, touches_store ev = false) (handshake env input chatDetails).
Proof. unfold handshake. by repeat constructor. Qed.

Lemma get_prop_ok_not_nullish v k w : get_prop v k = Ok w → nullish v = false.
Proof. by destruct v. Qed.

(** Either the [try] throws before the record is dealt with, having
    changed nothing and touched no store, or both awaited calls succeeded. *)
Lemma initiation_cases input success s :
  nullish input = false →
  (∃ e t,
     initiation_try env input (customization_of input) success s = (Throw e, s, t) ∧
     Forall (λ ev, touches_store ev = false) t) ∨
  (∃ chatDetails,
     initiateChat env input = Ok chatDetails ∧
     nullish chatDetails = false ∧
     logger s = true ∧
     session_open env (fresh_session input chatDetails) = Ok tt).
Proof.
  intros Hin. pose proof (initiation_try_run env input success s Hin) as Htry.
  destruct (initiateChat env input) as [chatDetails|e] eqn:Hinit.
  2:{ left. eexists _, _. split; [exact Htry | by repeat constructor]. }
  destruct (logger s) eqn:Hlog.
  2:{ left. eexists _, _. split; [exact Htry | by repeat constructor]. }
  destruct (get_prop chatDetails "startChatResult") as [scr|e] eqn:Hscr.
  2:{ left. eexists _, _. split; [exact Htry | by repeat constructor]. }
  destruct (session_open env (fresh_session input chatDetails)) as [[]|e] eqn:Hopen.
  2:{ left. eexists _, _. split; [exact Htry | apply handshake_untouched]. }
  right. exists chatDetails. repeat split; try done.
  by apply get_prop_ok_not_nullish in Hscr.
Qed.

End InitiationCases.

Section InitiationOutcomes.
Context (env : Env).

(** The record step of a fresh initiation, by the store the mode names. *)
Lemma save_in_submit input chatDetails s :
  nullish input = false → nullish chatDetails = false →
  let s1 := update_state (apply_patch (patch_status Initiating)) s in
  let saved := saveChatSession env input chatDetails (customization_of input) s1 in
  let text := JSON_stringify env (session_record env input chatDetails) in
  let cleared := [EvRemoveItem Local storage_key; EvRemoveItem Session storage_key] in
  state (final saved) = state s1 ∧
  match persistence_of env input with
  | WLocalStorage =>
      result_of saved = Ok tt ∧
      actions saved = cleared ++ [EvSetItem Local storage_key text] ∧
      localStorage (final saved) = with_record text (localStorage s) ∧
      sessionStorage (final saved) = delete storage_key (sessionStorage s)
  | WSessionStorage =>
      result_of saved = Ok tt ∧
      actions saved = cleared ++ [EvSetItem Session storage_key text] ∧
      localStorage (final saved) = delete storage_key (localStorage s) ∧
      sessionStorage (final saved) = with_record text (sessionStorage s)
  | WFalsy =>
      result_of saved = Ok tt ∧ actions saved = cleared ++ cleared ∧
      stores_cleared s (final saved)
  | WObject =>
      result_of saved = Throw (TypeError "storage.setItem is not a function") ∧
      actions saved = cleared ∧ stores_cleared s (final saved)
  end.
Proof.
  intros Hin Hcd. cbv zeta.
  pose proof (saveChatSession_run env input chatDetails (customization_of input)
                (update_state (apply_patch (patch_status Initiating)) s) Hin) as H.
  cbv zeta in H. rewrite chatSessionData_of_value in H by done.
  destruct H as (_ & Hst & H). split; [exact Hst|].
  by destruct (persistence_of env input).
Qed.

(** X1. When the Session Initiator and the open call succeed, the mode names
    a store or nothing, and [success] returns, the method returns normally
    with the state of lines 179-187 (whatever the state before), the chat
    is rendered, the record lies in the store the mode names and nowhere
    else, its [composerConfig] is the one of the state, and the actions are
    exactly: [Initiating], the two calls, the removals and the write, the
    current-session registration, [Initiated], the call of [success]. *)
Theorem initiation_completes input chatDetails success failure s :
  nullish input = false →
  initiateChat env input = Ok chatDetails →
  nullish chatDetails = false →
  logger s = true →
  session_open env (fresh_session input chatDetails) = Ok tt →
  persistence_of env input ≠ WObject →
  success_result env input chatDetails success = Ok tt →
  let run := submitChatInitiation env input success failure s in
  let text := JSON_stringify env (session_record env input chatDetails) in
  let cleared := [EvRemoveItem Local storage_key; EvRemoveItem Session storage_key] in
  result_of run = Ok tt ∧
  state (final run)
  = {| chatSession := Some (fresh_session input chatDetails);
       composerConfig := composer_of env input chatDetails;
       status := Initiated;
       language := js_or (prop input "language") (JStr "en_US") |} ∧
  render (state (final run))
  = ChatView (Some (fresh_session input chatDetails))
      (composer_of env input chatDetails)
      (js_or (prop input "language") (JStr "en_US")) OpReset ∧
  prop (session_record env input chatDetails) "composerConfig"
  = composerConfig (state (final run)) ∧
  match persistence_of env input with
  | WLocalStorage =>
      localStorage (final run) = with_record text (localStorage s) ∧
      sessionStorage (final run) = delete storage_key (sessionStorage s) ∧
      actions run
      = EvSetState (patch_status Initiating)
        :: handshake env input chatDetails
        ++ (cleared ++ [EvSetItem Local storage_key text])
        ++ completion env input chatDetails success
  | WSessionStorage =>
      localStorage (final run) = delete storage_key (localStorage s) ∧
      sessionStorage (final run) = with_record text (sessionStorage s) ∧
      actions run
      = EvSetState (patch_status Initiating)
        :: handshake env input chatDetails
        ++ (cleared ++ [EvSetItem Session storage_key text])
        ++ completion env input chatDetails success
  | _ =>
      stores_cleared s (final run) ∧
      actions run
      = EvSetState (patch_status Initiating)
        :: handshake env input chatDetails
        ++ (cleared ++ cleared)
        ++ completion env input chatDetails success
  end.
Proof.
  intros Hin Hinit Hcd Hlog Hopen Hmode Hsucc. cbv zeta.
  rewrite (submit_after_handshake env input chatDetails success failure s)
    by done. cbv zeta.
  rewrite finish_initiation_run by done. cbv zeta.
  destruct (save_in_submit input chatDetails s Hin Hcd) as (Hst & Hsaved).
  cbv zeta in Hst, Hsaved.
  destruct (persistence_of env input); try done;
    destruct Hsaved as (Hres & Hact & Hstores); rewrite Hres; cbn [result_of fst snd];
    rewrite Hsucc; cbn [final actions fst snd state update_state];
    rewrite Hst, Hact; (split; [reflexivity|]); (split; [reflexivity|]);
    (split; [reflexivity|]); (split; [reflexivity|]); cbn [localStorage sessionStorage];
    destruct Hstores as [Hl Hs]; repeat split; done.
Qed.

(** X2. A [success] continuation that throws turns a completed initiation
    into a failed one, whatever the persistence mode: the [catch] sets the
    status to [InitiateFailed] and calls [failure] on what was thrown, while
    the session stays in the state, the record stays in the store the mode
    names (no store holding one when the mode names none) and the failure
    panel is rendered. *)
Theorem throwing_success_fails_initiation input chatDetails f failure s e :
  nullish input = false →
  initiateChat env input = Ok chatDetails →
  nullish chatDetails = false →
  logger s = true →
  session_open env (fresh_session input chatDetails) = Ok tt →
  persistence_of env input ≠ WObject →
  invoke env f (ArgSession (fresh_session input chatDetails)) = Throw e →
  let run := submitChatInitiation env input (Some f) failure s in
  let text := JSON_stringify env (session_record env input chatDetails) in
  status (state (final run)) = InitiateFailed ∧
  render (state (final run)) = FailureView OpReset ∧
  chatSession (state (final run)) = Some (fresh_session input chatDetails) ∧
  match persistence_of env input with
  | WLocalStorage =>
      localStorage (final run) = with_record text (localStorage s) ∧
      sessionStorage (final run) = delete storage_key (sessionStorage s)
  | WSessionStorage =>
      localStorage (final run) = delete storage_key (localStorage s) ∧
      sessionStorage (final run) = with_record text (sessionStorage s)
  | _ => stores_cleared s (final run)
  end ∧
  In (EvSetState (initiated_patch env input chatDetails)) (actions run) ∧
  ∃ before, actions run = before ++ failure_report failure e.
Proof.
  intros Hin Hinit Hcd Hlog Hopen Hmode Hthrow. cbv zeta.
  rewrite (submit_after_handshake env input chatDetails (Some f) failure s)
    by done. cbv zeta.
  rewrite finish_initiation_run by done. cbv zeta.
  destruct (save_in_submit input chatDetails s Hin Hcd) as (Hst & Hsaved).
  cbv zeta in Hst, Hsaved.
  assert (result_of (saveChatSession env input chatDetails (customization_of input)
                       (update_state (apply_patch (patch_status Initiating)) s))
          = Ok tt) as Hres.
  { destruct (persistence_of env input); try done; by destruct Hsaved. }
  rewrite Hres. cbn [result_of fst snd].
  unfold success_result. rewrite Hthrow.
  cbn [final actions fst snd state update_state localStorage sessionStorage].
  rewrite Hst. split; [reflexivity|]. split; [reflexivity|]. split; [reflexivity|].
  split; [|split].
  - destruct (persistence_of env input); try done;
      destruct Hsaved as (_ & _ & Hstores); exact Hstores.
  - right. apply in_or_app. left. apply in_or_app. right.
    apply in_or_app. right. unfold completion. right. by left.
  - by exists (EvSetState (patch_status Initiating)
               :: handshake env input chatDetails
               ++ actions (saveChatSession env input chatDetails (customization_of input)
                             (update_state (apply_patch (patch_status Initiating)) s))
               ++ completion env input chatDetails (Some f)).
Qed.

(** X3. A persistence mode that names a global which is no store makes a
    completed handshake fail: [storage.setItem] is no function, the [catch]
    sets [InitiateFailed] and calls [failure] on the [TypeError], the key
    has been removed from both stores, nothing is written, and the opened
    session is neither put in the state nor registered as current. *)
Theorem unusable_store_fails_initiation input chatDetails success failure s :
  nullish input = false →
  initiateChat env input = Ok chatDetails →
  nullish chatDetails = false →
  logger s = true →
  session_open env (fresh_session input chatDetails) = Ok tt →
  persistence_of env input = WObject →
  let run := submitChatInitiation env input success failure s in
  status (state (final run)) = InitiateFailed ∧
  chatSession (state (final run)) = chatSession (state s) ∧
  stores_cleared s (final run) ∧
  actions run
  = EvSetState (patch_status Initiating)
    :: (handshake env input chatDetails
        ++ [EvRemoveItem Local storage_key; EvRemoveItem Session storage_key])
    ++ failure_report failure (TypeError "storage.setItem is not a function").
Proof.
  intros Hin Hinit Hcd Hlog Hopen Hmode. cbv zeta.
  rewrite (submit_after_handshake env input chatDetails success failure s)
    by done. cbv zeta.
  rewrite finish_initiation_run by done. cbv zeta.
  destruct (save_in_submit input chatDetails s Hin Hcd) as (Hst & Hsaved).
  cbv zeta in Hst, Hsaved. rewrite Hmode in Hsaved.
  destruct Hsaved as (Hres & Hact & Hl & Hs). rewrite Hres. cbn [result_of fst snd].
  cbn [final actions fst snd state update_state localStorage sessionStorage].
  rewrite Hst, Hact. repeat split; done.
Qed.

(** The status a run of the [try] leaves when it returns. *)
Lemma initiation_try_status input success s :
  nullish input = false →
  let run := initiation_try env input (customization_of input) success s in
  match result_of run with
  | Ok _ => status (state (final run)) = Initiated
  | Throw _ => True
  end.
Proof.
  intros Hin. cbv zeta. rewrite initiation_try_run by done.
  destruct (initiateChat env input) as [chatDetails|]; [|done].
  destruct (logger s); [|done].
  destruct (get_prop chatDetails "startChatResult") eqn:Hscr; [|done].
  destruct (session_open env _) as [[]|]; [|done]. cbv zeta.
  rewrite finish_initiation_run by (done || by apply get_prop_ok_not_nullish in Hscr).
  cbv zeta.
  destruct (result_of (saveChatSession env input chatDetails (customization_of input) s));
    cbn [result_of final fst snd]; [|done].
  by destruct (success_result env input chatDetails success).
Qed.

(** The status the whole method leaves on an actual configuration. *)
Lemma submit_final_status input success failure s :
  nullish input = false →
  settled (status (state (final (submitChatInitiation env input success failure s))))
  = true.
Proof.
  intros Hin. rewrite submitChatInitiation_run by done. cbv zeta.
  pose proof (initiation_try_status input success
                (update_state (apply_patch (patch_status Initiating)) s) Hin) as Hst.
  cbv zeta in Hst.
  destruct (initiation_try env input (customization_of input) success
              (update_state (apply_patch (patch_status Initiating)) s))
    as [[[[]|e0] s2] t2] eqn:Htry; cbn [result_of final fst snd] in Hst.
  - rewrite (try_catch_ok _ _ _ _ _ _ Htry). cbn [final fst snd]. by rewrite Hst.
  - by rewrite (try_catch_throw _ _ _ _ _ _ Htry), initiation_catch_run.
Qed.

(** X4. On a configuration that is an actual value, the method never leaves
    the component in [Initiating] or [NotInitiated]: it ends in [Initiated]
    or in [InitiateFailed], so the loader is never what is rendered next,
    and the promise is rejected only by a continuation that throws. *)
Theorem initiation_settles input success failure s :
  nullish input = false →
  let run := submitChatInitiation env input success failure s in
  settled (status (state (final run))) = true ∧
  render (state (final run)) ≠ LoaderView ∧
  (∀ e, result_of run = Throw e →
        status (state (final run)) = InitiateFailed ∧
        ∃ f e0, failure = Some f ∧ invoke env f (ArgError e0) = Throw e).
Proof.
  intros Hin. cbv zeta. rewrite submitChatInitiation_run by done. cbv zeta.
  pose proof (initiation_try_status input success
                (update_state (apply_patch (patch_status Initiating)) s) Hin) as Hst.
  cbv zeta in Hst.
  destruct (initiation_try env input (customization_of input) success
              (update_state (apply_patch (patch_status Initiating)) s))
    as [[[[]|e0] s2] t2] eqn:Htry; cbn [result_of final fst snd] in Hst.
  - rewrite (try_catch_ok _ _ _ _ _ _ Htry). cbn [result_of final fst snd].
    unfold render. rewrite Hst. by repeat split.
  - rewrite (try_catch_throw _ _ _ _ _ _ Htry), initiation_catch_run.
    cbn [result_of final fst snd]. unfold render. cbn.
    split; [done|]. split; [done|]. intros e1 He. split; [done|].
    destruct failure as [f|]; [by exists f, e0 | discriminate].
Qed.

(** X5. No store is touched before both awaited calls have succeeded: a run
    that removes or writes an item starts with [Initiating] and the full
    handshake, ending with the successful open call. *)
Theorem stores_touched_after_handshake input success failure s ev :
  let run := submitChatInitiation env input success failure s in
  In ev (actions run) → touches_store ev = true →
  ∃ chatDetails rest,
    initiateChat env input = Ok chatDetails ∧
    session_open env (fresh_session input chatDetails) = Ok tt ∧
    actions run
    = EvSetState (patch_status Initiating) :: handshake env input chatDetails ++ rest ∧
    In ev rest.
Proof.
  cbv zeta. intros Hev Htouch.
  assert (∀ t, Forall (λ ev, touches_store ev = false) t → In ev t → False) as Hno.
  { intros t Hall Hin'. rewrite Forall_forall in Hall.
    apply list_elem_of_In, Hall in Hin'. congruence. }
  destruct (nullish input) eqn:Hin.
  { destruct (submitChatInitiation_nullish env input success failure s Hin) as [msg Hrun].
    rewrite Hrun in Hev. destruct Hev as [<-|[]]. discriminate. }
  destruct (initiation_cases env input success
              (update_state (apply_patch (patch_status Initiating)) s) Hin)
    as [(e & t & Htry & Hquiet)|(chatDetails & Hinit & Hcd & Hlog & Hopen)].
  - exfalso.
    destruct (submitChatInitiation_caught env input success failure s e t Hin Htry)
      as (_ & _ & Hact).
    rewrite Hact in Hev. destruct Hev as [<-|Hev]; [discriminate|].
    apply in_app_or in Hev as [Hev|Hev]; [by apply (Hno t)|].
    by apply (Hno _ (untouched_failure_report failure e)).
  - exists chatDetails. cbn [logger update_state] in Hlog.
    pose proof (submit_after_handshake env input chatDetails success failure s
                  Hin Hinit Hcd Hlog Hopen) as Hrun. cbv zeta in Hrun.
    destruct (result_of (finish_initiation env input chatDetails (customization_of input)
                (fresh_session input chatDetails) success
                (update_state (apply_patch (patch_status Initiating)) s))) as [[]|e].
    + rewrite Hrun in *. cbn [actions snd] in *. eexists. repeat split; try done.
      destruct Hev as [<-|Hev]; [discriminate|].
      apply in_app_or in Hev as [Hev|Hev]; [|done].
      by destruct (Hno _ (handshake_untouched env input chatDetails)).
    + rewrite Hrun in *. cbn [actions snd] in *. rewrite <- app_assoc.
      eexists. repeat split; try done.
      destruct Hev as [<-|Hev]; [discriminate|].
      rewrite <- app_assoc in Hev.
      apply in_app_or in Hev as [Hev|Hev]; [|done].
      by destruct (Hno _ (handshake_untouched env input chatDetails)).
Qed.

End InitiationOutcomes.

(** ** What a rehydration does in each of its cases *)

Section RehydrationOutcomes.
Context (env : Env).

(** The four shapes of a run of [checkAndRehydrateChat]. *)
Lemma rehydrate_outcomes s :
  let run := checkAndRehydrateChat env s in
  run = (Ok tt, update_state (apply_patch (patch_status NotInitiated)) s,
         [EvSetState (patch_status NotInitiated)]) ∨
  (logger s = true ∧
   ∃ t, run = (Ok tt, cleared_not_initiated s, t ++ recovery) ∧
        (t = [] ∨ ∃ R, t = opening env R)) ∨
  (logger s = false ∧
   run = (Throw (TypeError "Cannot read properties of undefined"), s, [])) ∨
  (logger s = true ∧
   ∃ R, session_open env (stored_session R) = Ok tt ∧
        run = (Ok tt, update_state (apply_patch (rehydrated_patch R)) s,
               opening env R ++ [EvSetState (rehydrated_patch R)])).
Proof.
  cbv zeta.
  destruct (read_chatSessionData s) as [text|] eqn:Hread.
  2:{ left. by apply rehydrate_absent. }
  assert (∀ e0, rehydrate_body env text s = (Throw e0, s, []) →
    (logger s = true ∧
     ∃ t, checkAndRehydrateChat env s = (Ok tt, cleared_not_initiated s, t ++ recovery) ∧
          (t = [] ∨ ∃ R, t = opening env R)) ∨
    (logger s = false ∧
     checkAndRehydrateChat env s
     = (Throw (TypeError "Cannot read properties of undefined"), s, []))) as Hthrown.
  { intros e0 Hbody. destruct (logger s) eqn:Hlog.
    - left. split; [done|]. exists []. split; [|by left].
      apply (rehydrate_caught env s text _ _ Hread Hbody Hlog).
    - right. split; [done|].
      apply (rehydrate_uncaught env s text _ _ Hread Hbody Hlog). }
  destruct (JSON_parse env text) as [R|] eqn:Hparse.
  2:{ right. destruct (Hthrown _ (body_malformed env s text Hparse)); auto. }
  destruct (nullish R) eqn:Hnull.
  { destruct (body_nullish env s text R Hparse Hnull) as [msg Hbody].
    right. destruct (Hthrown _ Hbody); auto. }
  destruct (valid_record R) eqn:Hvalid.
  2:{ left. apply (rehydrate_skipped env s text Hread
                     (body_invalid env s text R Hparse Hnull Hvalid)). }
  destruct (logger s) eqn:Hlog.
  2:{ right. destruct (Hthrown _ (body_no_logger env s text R Hparse Hvalid Hlog)); auto. }
  pose proof (body_valid env s text R Hparse Hvalid Hlog) as Hbody.
  destruct (session_open env (stored_session R)) as [[]|e0] eqn:Hopen.
  - right. right. right. split; [done|]. exists R. split; [done|].
    apply (rehydrate_returned env s text _ _ Hread Hbody).
  - right. left. split; [done|]. exists (opening env R). split; [|eauto].
    apply (rehydrate_caught env s text _ _ Hread Hbody Hlog).
Qed.

Lemma recovery_actions : Forall (λ ev, rehydration_action ev = true) recovery.
Proof. unfold recovery. by repeat constructor. Qed.

Lemma opening_actions R : Forall (λ ev, rehydration_action ev = true) (opening env R).
Proof. unfold opening. by repeat constructor. Qed.

(** X6. A rehydration never calls the Session Initiator, never writes an
    item, never calls a host continuation, never triggers an event and
    never sets the status to [Initiating] or [InitiateFailed]: its actions
    are logging, removing the session-record key, constructing and opening
    a session, and setting the status to [Initiated] or [NotInitiated].
    With a logger it always returns normally, in one of these two statuses;
    without one, a rejection leaves the component and the stores as they
    were. *)
Theorem rehydration_is_contained s :
  let run := checkAndRehydrateChat env s in
  Forall (λ ev, rehydration_action ev = true) (actions run) ∧
  match result_of run with
  | Ok _ =>
      status (state (final run)) = Initiated ∨
      status (state (final run)) = NotInitiated
  | Throw _ => logger s = false ∧ final run = s ∧ actions run = []
  end ∧
  (status (state (final run)) = Initiated ∧ status (state s) ≠ Initiated →
   ∃ cs, chatSession (state (final run)) = Some cs ∧
         In (EvOpenChatSession cs (Ok tt)) (actions run)).
Proof.
  cbv zeta.
  destruct (rehydrate_outcomes s)
    as [->|[(Hlog & t & -> & Ht)|[(Hlog & ->)|(Hlog & R & Hopen & ->)]]];
    cbn [actions result_of final fst snd].
  - repeat split; [by repeat constructor | by right | ]. cbn. by intros [? _].
  - repeat split.
    + apply Forall_app. split; [|apply recovery_actions].
      destruct Ht as [->|[R ->]]; [constructor | apply opening_actions].
    + by right.
    + cbn. by intros [? _].
  - repeat split; try done. by intros [? ?].
  - repeat split.
    + apply Forall_app. split; [apply opening_actions | by repeat constructor].
    + by left.
    + intros _. exists (stored_session R). split; [done|].
      apply in_or_app. left. unfold opening. rewrite Hopen. do 4 right. by left.
Qed.

End RehydrationOutcomes.

(** ** Persisting, resetting and reloading *)

Section Reload.
Context (env : Env).

Lemma read_after_clear s s' :
  stores_cleared s s' → read_chatSessionData s' = None.
Proof.
  intros [Hl Hs]. unfold read_chatSessionData. by rewrite Hl, Hs, !lookup_delete_eq.
Qed.

Lemma read_written_local s text :
  text ≠ "" → localStorage s !! storage_key = Some text →
  read_chatSessionData s = Some text.
Proof. intros Hne Hl. by apply read_prefers_local. Qed.

Lemma read_written_session s text :
  text ≠ "" → localStorage s !! storage_key = None →
  sessionStorage s !! storage_key = Some text →
  read_chatSessionData s = Some text.
Proof.
  intros Hne Hl Hs. unfold read_chatSessionData, nonempty. rewrite Hl, Hs.
  by destruct (String.eqb_spec text "").
Qed.

(** X7. After [resetState], whatever came before, the next rehydration (in
    the same component or after a reload, with or without a logger) finds
    nothing: it only sets the status to [NotInitiated], opens no session
    and the loader is rendered. *)
Theorem reset_then_rehydrate s has_logger :
  let s1 := final (resetState s) in
  checkAndRehydrateChat env s1
  = (Ok tt, update_state (apply_patch (patch_status NotInitiated)) s1,
     [EvSetState (patch_status NotInitiated)]) ∧
  checkAndRehydrateChat env (reloaded s1 has_logger)
  = (Ok tt, update_state (apply_patch (patch_status NotInitiated)) (reloaded s1 has_logger),
     [EvSetState (patch_status NotInitiated)]) ∧
  chatSession (state (final (checkAndRehydrateChat env s1))) = None ∧
  render (state (final (checkAndRehydrateChat env s1))) = LoaderView.
Proof.
  cbv zeta. destruct (resetState_run s) as (_ & Hclear & _ & Hst).
  assert (checkAndRehydrateChat env (final (resetState s))
          = (Ok tt,
             update_state (apply_patch (patch_status NotInitiated)) (final (resetState s)),
             [EvSetState (patch_status NotInitiated)])) as Hrun.
  { apply rehydrate_absent. by apply (read_after_clear s). }
  split; [exact Hrun|]. split.
  - apply rehydrate_absent. apply (read_after_clear s). exact Hclear.
  - rewrite Hrun. cbn [final fst snd state update_state]. rewrite Hst. by split.
Qed.

Lemma ids_truthy_wrapped chatDetails :
  ids_truthy chatDetails = true → truthy (prop chatDetails "startChatResult") = true.
Proof.
  unfold ids_truthy. unfold prop at 3.
  destruct (field chatDetails "startChatResult") as [scr|]; [|done].
  intros [H _]%andb_prop. by apply prop_truthy_object in H as [fields ->].
Qed.

Lemma ids_truthy_unwrapped chatDetails :
  truthy (prop chatDetails "startChatResult") = false → ids_truthy chatDetails = false.
Proof.
  unfold ids_truthy. unfold prop at 1.
  destruct (field chatDetails "startChatResult") as [scr|]; [|done]. cbn.
  by destruct scr.
Qed.

(** A completed initiation leaves the stores as the record step left them. *)
Lemma completed_stores input chatDetails success failure s :
  nullish input = false →
  initiateChat env input = Ok chatDetails →
  nullish chatDetails = false →
  logger s = true →
  session_open env (fresh_session input chatDetails) = Ok tt →
  let saved := saveChatSession env input chatDetails (customization_of input)
                 (update_state (apply_patch (patch_status Initiating)) s) in
  same_stores (final saved) (final (submitChatInitiation env input success failure s)).
Proof.
  intros Hin Hinit Hcd Hlog Hopen. cbv zeta.
  rewrite (submit_after_handshake env input chatDetails success failure s) by done.
  cbv zeta. rewrite finish_initiation_run by done. cbv zeta.
  destruct (result_of (saveChatSession env input chatDetails (customization_of input)
              (update_state (apply_patch (patch_status Initiating)) s))) as [[]|e];
    cbn [result_of final fst snd]; [|done].
  by destruct (success_result env input chatDetails success).
Qed.

(** The text a reload reads after an initiation that got as far as saving
    the record in a store. *)
Lemma read_after_initiation input chatDetails success failure s st :
  nullish input = false →
  initiateChat env input = Ok chatDetails →
  nullish chatDetails = false →
  logger s = true →
  session_open env (fresh_session input chatDetails) = Ok tt →
  names_store (persistence_of env input) st = true →
  JSON_stringify env (session_record env input chatDetails) ≠ "" →
  ∀ has_logger,
    read_chatSessionData
      (reloaded (final (submitChatInitiation env input success failure s)) has_logger)
    = Some (JSON_stringify env (session_record env input chatDetails)).
Proof.
  intros Hin Hinit Hcd Hlog Hopen Hst Hne has_logger.
  destruct (completed_stores input chatDetails success failure s Hin Hinit Hcd Hlog Hopen)
    as [Hl Hs].
  destruct (save_in_submit env input chatDetails s Hin Hcd) as (_ & Hsaved).
  cbv zeta in Hsaved.
  destruct (persistence_of env input), st; try discriminate;
    destruct Hsaved as (_ & _ & Hl' & Hs').
  - apply read_written_local; [done|].
    cbn [reloaded page localStorage]. rewrite Hl, Hl'. apply lookup_insert_eq.
  - apply read_written_session; [done| |]; cbn [reloaded page localStorage sessionStorage].
    + rewrite Hl, Hl'. apply lookup_delete_eq.
    + rewrite Hs, Hs'. apply lookup_insert_eq.
Qed.

Lemma stored_session_of_record input chatDetails :
  truthy (prop chatDetails "startChatResult") = true →
  stored_session (session_record env input chatDetails) = fresh_session input chatDetails.
Proof. intros H. unfold stored_session, fresh_session. by rewrite H. Qed.

(** X8. Persisting and reloading is a round trip when the Session
    Initiator's result carries truthy identifiers under [startChatResult]
    and the platform reads the stored text back as the record: the
    rehydration after a reload opens the very session the initiation opened,
    without calling the Session Initiator, ends in [Initiated] with the same
    [composerConfig], and leaves the stores alone.  The language it restores
    is the configuration's own: the default [en_US] of line 178 is not
    persisted. *)
Theorem persist_then_rehydrate input chatDetails success failure s st :
  nullish input = false →
  initiateChat env input = Ok chatDetails →
  logger s = true →
  session_open env (fresh_session input chatDetails) = Ok tt →
  names_store (persistence_of env input) st = true →
  ids_truthy chatDetails = true →
  JSON_stringify env (session_record env input chatDetails) ≠ "" →
  JSON_parse env (JSON_stringify env (session_record env input chatDetails))
  = Some (session_record env input chatDetails) →
  let run := submitChatInitiation env input success failure s in
  let again := checkAndRehydrateChat env (reloaded (final run) true) in
  result_of again = Ok tt ∧
  state (final again)
  = {| chatSession := Some (fresh_session input chatDetails);
       composerConfig := composer_of env input chatDetails;
       status := Initiated;
       language := prop input "language" |} ∧
  actions again
  = opening env (session_record env input chatDetails)
    ++ [EvSetState (rehydrated_patch (session_record env input chatDetails))] ∧
  In (EvOpenChatSession (fresh_session input chatDetails) (Ok tt)) (actions again) ∧
  same_stores (final run) (final again).
Proof.
  intros Hin Hinit Hlog Hopen Hst Hids Hne Hparse. cbv zeta.
  pose proof (ids_truthy_wrapped chatDetails Hids) as Hwrapped.
  pose proof (prop_truthy_not_nullish _ _ Hwrapped) as Hcd.
  pose proof (read_after_initiation input chatDetails success failure s st
                Hin Hinit Hcd Hlog Hopen Hst Hne true) as Hread.
  pose proof (body_valid env
                (reloaded (final (submitChatInitiation env input success failure s)) true)
                _ _ Hparse Hids eq_refl) as Hbody.
  rewrite stored_session_of_record, Hopen in Hbody by done.
  rewrite (rehydrate_returned env _ _ _ _ Hread Hbody).
  cbn [result_of final actions fst snd]. repeat split; try done.
  - unfold rehydrated_patch. by rewrite stored_session_of_record.
  - apply in_or_app. left. unfold opening.
    rewrite stored_session_of_record, Hopen by done. do 4 right. by left.
Qed.

(** X9. A session initiated from a result that is not wrapped in
    [startChatResult] is opened (line 228 wraps it) and its record is
    written, but the record keeps the bare result, which fails the test of
    line 86: after a reload the rehydration opens nothing, sets the status
    to [NotInitiated] and leaves the record in its store. *)
Theorem bare_result_is_not_resumed input chatDetails success failure s st :
  nullish input = false →
  initiateChat env input = Ok chatDetails →
  nullish chatDetails = false →
  logger s = true →
  session_open env (fresh_session input chatDetails) = Ok tt →
  names_store (persistence_of env input) st = true →
  truthy (prop chatDetails "startChatResult") = false →
  JSON_stringify env (session_record env input chatDetails) ≠ "" →
  JSON_parse env (JSON_stringify env (session_record env input chatDetails))
  = Some (session_record env input chatDetails) →
  let run := submitChatInitiation env input success failure s in
  cs_chatDetails (fresh_session input chatDetails)
  = JObj [("startChatResult", chatDetails)] ∧
  In (EvOpenChatSession (fresh_session input chatDetails) (Ok tt)) (actions run) ∧
  store st (final run) !! storage_key
  = Some (JSON_stringify env (session_record env input chatDetails)) ∧
  ∀ has_logger,
    checkAndRehydrateChat env (reloaded (final run) has_logger)
    = (Ok tt,
       update_state (apply_patch (patch_status NotInitiated))
         (reloaded (final run) has_logger),
       [EvSetState (patch_status NotInitiated)]).
Proof.
  intros Hin Hinit Hcd Hlog Hopen Hst Hbare Hne Hparse. cbv zeta.
  split; [unfold fresh_session; by rewrite Hbare|]. split; [|split].
  - rewrite (submit_after_handshake env input chatDetails success failure s) by done.
    cbv zeta.
    assert (In (EvOpenChatSession (fresh_session input chatDetails) (Ok tt))
              (handshake env input chatDetails)) as Hhand.
    { unfold handshake. rewrite Hopen. do 4 right. by left. }
    destruct (result_of _); cbn [actions snd]; right;
      repeat (apply in_or_app; left); exact Hhand.
  - destruct (completed_stores input chatDetails success failure s Hin Hinit Hcd Hlog Hopen)
      as [Hl Hs].
    destruct (save_in_submit env input chatDetails s Hin Hcd) as (_ & Hsaved).
    cbv zeta in Hsaved.
    destruct (persistence_of env input), st; try discriminate;
      destruct Hsaved as (_ & _ & Hl' & Hs'); cbn [store].
    + rewrite Hl, Hl'. apply lookup_insert_eq.
    + rewrite Hs, Hs'. apply lookup_insert_eq.
  - intros has_logger.
    pose proof (read_after_initiation input chatDetails success failure s st
                  Hin Hinit Hcd Hlog Hopen Hst Hne has_logger) as Hread.
    apply (rehydrate_skipped env _ _ Hread).
    apply (body_invalid env _ _ _ Hparse eq_refl).
    by apply ids_truthy_unwrapped.
Qed.

End Reload.

(** ** The two event handlers of the component *)

Section Handlers.
Context (env : Env).

(** X10. The [storage] handler ignores every event whose key is not the
    session-record key, and without a logger it throws at line 121 before
    reading anything.  For that key and with a logger it never throws.
    When no valid record is stored, the rehydration has come to its end
    when the handler returns: the status is [NotInitiated].  When a valid
    record is stored, the handler returns at the [await] of line 90: a
    session has been constructed from the record and its opening is under
    way, while the state and the stores are as they were; the status
    becomes [Initiated] only when the promise settles, and then, from
    whatever state the component is in by then, a successful open installs
    the stored session and a failed one clears both stores. *)
Theorem storage_event_handled event s :
  nullish event = false →
  let run := onStorageChange env event s in
  if match prop event "key" with
     | JStr k => String.eqb k storage_key
     | _ => false
     end
  then
    if logger s then
      match result_of run with
      | Ok None =>
          final run = final (checkAndRehydrateChat env s) ∧
          actions run
          = EvLog Info "Storage event detected. Checking for new chat session."
            :: actions (checkAndRehydrateChat env s) ∧
          status (state (final run)) = NotInitiated
      | Ok (Some pending) =>
          ∃ text R,
            read_chatSessionData s = Some text ∧
            JSON_parse env text = Some R ∧ valid_record R = true ∧
            pending = AwaitRehydrationOpen R (stored_session R) ∧
            final run = s ∧
            actions run
            = EvLog Info "Storage event detected. Checking for new chat session."
              :: opening env R ∧
            ∀ s', logger s' = true →
                  resume env pending s'
                  = match session_open env (stored_session R) with
                    | Ok _ =>
                        (Ok None, update_state (apply_patch (rehydrated_patch R)) s',
                         [EvSetState (rehydrated_patch R)])
                    | Throw _ => (Ok None, cleared_not_initiated s', recovery)
                    end
      | Throw _ => False
      end
    else run = (Throw (TypeError "Cannot read properties of undefined"), s, [])
  else run = (Ok None, s, []).
Proof.
  intros Hev. cbv zeta. unfold onStorageChange, bind, lift.
  rewrite get_prop_prop by done.
  destruct (prop event "key") as [| | | |k| |]; try reflexivity.
  destruct (String.eqb k storage_key); [|reflexivity].
  unfold logger_call, not_awaited. destruct (logger s) eqn:Hlog; [|reflexivity].
  pose proof (checkAndRehydrateChat_cut env s) as Hcut.
  destruct (checkAndRehydrateChat_begin_cases env s)
    as [Hrun|[(_ & Hrun)|[(Hlog' & _)|(_ & text & R & Hread & Hparse & Hvalid & Hrun)]]];
    [| |congruence|]; unfold bind in Hcut; rewrite Hrun in *;
    cbn [result_of final actions fst snd app].
  - cbn in Hcut. rewrite <- Hcut. by cbn.
  - cbn in Hcut. rewrite <- Hcut. by cbn.
  - exists text, R. repeat split; try done.
    intros s' Hlog'. cbn [resume]. unfold bind.
    rewrite checkAndRehydrateChat_resume_run
      by (by destruct (valid_record_object R Hvalid) as [fields ->]).
    destruct (session_open env (stored_session R)) as [[]|e]; [reflexivity|].
    by rewrite Hlog'.
Qed.

(** X11. The [initChat] handler throws on a payload that is [undefined] or
    [null], before changing anything.  On any other payload it returns at
    the first [await] of [submitChatInitiation]: the status is
    [Initiating], so the loader is rendered; the Session Initiator has been
    called, once, with the payload; no store has been touched; and the rest
    of the initiation is pending.  Run to its end with nothing in between,
    that rest completes exactly what [submitChatInitiation] does from its
    call to its end, and the status is then [Initiated] or
    [InitiateFailed]. *)
Theorem initChat_handler_run config success failure s :
  let run := initiateChatSession env config success failure s in
  if nullish config then ∃ msg, run = (Throw (TypeError msg), s, [])
  else
    let pending := AwaitInitiator config (customization_of config) success failure in
    let rest := to_its_end env (Some pending) (final run) in
    let whole := submitChatInitiation env config success failure s in
    run = (Ok (Some pending), initiating s, initiation_started env config (logger s)) ∧
    render (state (final run)) = LoaderView ∧
    same_stores s (final run) ∧
    result_of rest = result_of whole ∧
    final rest = final whole ∧
    actions run ++ actions rest
    = (if logger s then [EvLog Info "Chat session meta data:"] else [])
      ++ actions whole ∧
    settled (status (state (final rest))) = true.
Proof.
  cbv zeta. destruct (nullish config) eqn:Hin.
  - unfold initiateChatSession, bind, lift.
    destruct (get_prop_nullish config "contactFlowId" Hin) as [msg ->]. eauto.
  - rewrite initiateChatSession_run by done. cbn [final fst snd].
    pose proof (submit_final_status env config success failure s Hin) as Hst.
    pose proof (submitChatInitiation_cut env config success failure s) as Hcut.
    unfold bind at 1 in Hcut.
    assert (submitChatInitiation_begin env config success failure s
            = (Ok (Some (AwaitInitiator config (customization_of config)
                           success failure)),
               initiating s,
               [EvSetState (patch_status Initiating);
                EvInitiateChat config (initiateChat env config)])) as Hbegin.
    { unfold submitChatInitiation_begin, bind, lift, setState, emit, ret.
      by rewrite !get_prop_prop by done. }
    rewrite Hbegin in Hcut. rewrite <- Hcut in *.
    destruct (to_its_end env _ (initiating s)) as [[r s1] t1].
    cbn [result_of final actions fst snd] in *.
    repeat split; try done.
    unfold initiation_started. by rewrite <- app_assoc.
Qed.

End Handlers.

(** ** Every other key of the stores *)

Section Frame.
Context (env : Env).

Lemma framed_step s s1 s2 :
  other_keys_kept s s1 ∧ logger s1 = logger s →
  other_keys_kept s1 s2 ∧ logger s2 = logger s1 →
  other_keys_kept s s2 ∧ logger s2 = logger s.
Proof.
  intros [H1 Hl1] [H2 Hl2]. split; [|congruence].
  intros k Hk. destruct (H1 k Hk) as [E1 E2], (H2 k Hk) as [E3 E4].
  split; congruence.
Qed.

Lemma framed_same {A} (m : M A) :
  (∀ s, localStorage (final (m s)) = localStorage s ∧
        sessionStorage (final (m s)) = sessionStorage s ∧
        logger (final (m s)) = logger s) →
  framed m.
Proof.
  intros H s. destruct (H s) as (Hl & Hs & Hlog). split; [|done].
  intros k _. by rewrite Hl, Hs.
Qed.

Lemma framed_ret {A} (a : A) : framed (ret a).
Proof. by apply framed_same. Qed.

Lemma framed_throw {A} e : framed (@throw A e).
Proof. by apply framed_same. Qed.

Lemma framed_lift {A} (o : Outcome A) : framed (lift o).
Proof. by apply framed_same. Qed.

Lemma framed_emit ev : framed (emit ev).
Proof. by apply framed_same. Qed.

Lemma framed_getItem st k : framed (getItem st k).
Proof. by apply framed_same. Qed.

Lemma framed_setState p : framed (setState p).
Proof. by apply framed_same. Qed.

Lemma framed_logger_call lvl msg : framed (logger_call lvl msg).
Proof.
  apply framed_same. intros s. unfold logger_call.
  destruct (logger s) eqn:E; cbn; auto.
Qed.

Lemma framed_logger_guarded lvl msg : framed (logger_guarded lvl msg).
Proof.
  apply framed_same. intros s. unfold logger_guarded.
  destruct (logger s) eqn:E; cbn; auto.
Qed.

Lemma framed_removeItem st : framed (removeItem st storage_key).
Proof.
  intros s. split; [|by destruct st]. intros k Hk.
  destruct st; cbn; rewrite ?lookup_delete_ne by congruence; done.
Qed.

Lemma framed_setItem st v : framed (setItem st storage_key v).
Proof.
  intros s. split; [|by destruct st]. intros k Hk.
  destruct st; cbn; rewrite ?lookup_insert_ne by congruence; done.
Qed.

Lemma framed_bind {A B} (m : M A) (k : A → M B) :
  framed m → (∀ a, framed (k a)) → framed (bind m k).
Proof.
  intros Hm Hk s. specialize (Hm s). run_of m s.
  - rewrite (bind_ok _ _ _ _ _ _ Erun). cbn in *.
    eapply framed_step; [exact Hm | apply Hk].
  - by rewrite (bind_throw _ _ _ _ _ _ Erun).
Qed.

Lemma framed_try_catch {A} (m : M A) (h : jserror → M A) :
  framed m → (∀ e, framed (h e)) → framed (try_catch m h).
Proof.
  intros Hm Hh s. specialize (Hm s). run_of m s.
  - by rewrite (try_catch_ok _ _ _ _ _ _ Erun).
  - rewrite (try_catch_throw _ _ _ _ _ _ Erun). cbn in *.
    eapply framed_step; [exact Hm | apply Hh].
Qed.

Lemma framed_not_awaited (m : M (option Pending)) : framed m → framed (not_awaited m).
Proof.
  intros Hm s. specialize (Hm s). unfold not_awaited.
  by destruct (m s) as [[? ?] ?].
Qed.

Lemma framed_call_if_set cb arg : framed (call_if_set env cb arg).
Proof.
  destruct cb; cbn; [|apply framed_ret].
  apply framed_bind; [apply framed_emit | intros; apply framed_lift].
Qed.

End Frame.

(** Structural steps of a proof of [framed]; branches on data are left to
    the caller. *)
Ltac framed_steps :=
  repeat first
    [ apply framed_ret | apply framed_throw | apply framed_lift | apply framed_emit
    | apply framed_getItem | apply framed_setState | apply framed_logger_call
    | apply framed_logger_guarded | apply framed_removeItem | apply framed_setItem
    | apply framed_call_if_set | apply framed_not_awaited | apply framed_try_catch
    | apply framed_bind | match goal with |- ∀ _, _ => intro end ].

Section FrameOfOperations.
Context (env : Env).

Lemma framed_saveChatSession input chatDetails customizationParams :
  framed (saveChatSession env input chatDetails customizationParams).
Proof.
  unfold saveChatSession. apply framed_bind; [framed_steps|]. intros key.
  do 2 (apply framed_bind; [framed_steps|]; intros _).
  destruct (window_get env key); framed_steps.
Qed.

Lemma framed_openChatSession chatDetails name region stage customizationParams :
  framed (openChatSession env chatDetails name region stage customizationParams).
Proof. unfold openChatSession. framed_steps. Qed.

Lemma framed_openChatSession_call chatDetails name region stage customizationParams :
  framed (openChatSession_call env chatDetails name region stage customizationParams).
Proof. unfold openChatSession_call. framed_steps. Qed.

Lemma framed_checkAndRehydrateChat : framed (checkAndRehydrateChat env).
Proof.
  intros s. unfold checkAndRehydrateChat.
  destruct (read_chatSessionData s) as [text|].
  2:{ apply (framed_setState (patch_status NotInitiated) s). }
  revert s. change (framed
    (bind (try_catch (rehydrate_body env text) (rehydrate_handler))
          (λ returned : bool, if returned then ret tt
                              else setState (patch_status NotInitiated)))).
  apply framed_bind.
  - apply framed_try_catch; [|intros e; unfold rehydrate_handler; framed_steps].
    unfold rehydrate_body. apply framed_bind.
    { destruct (JSON_parse env text); framed_steps. }
    intros parsedData. do 2 (apply framed_bind; [framed_steps|]; intros ?).
    match goal with |- framed (if ?b then _ else _) => destruct b end;
      [|framed_steps].
    do 6 (apply framed_bind; [framed_steps|]; intros ?).
    apply framed_bind; [apply framed_openChatSession|]. framed_steps.
  - intros [|]; framed_steps.
Qed.

Lemma framed_submitChatInitiation input success failure :
  framed (submitChatInitiation env input success failure).
Proof.
  unfold submitChatInitiation. do 3 (apply framed_bind; [framed_steps|]; intros ?).
  apply framed_try_catch; [|intros e; unfold initiation_catch; framed_steps].
  unfold initiation_try. do 6 (apply framed_bind; [framed_steps|]; intros ?).
  apply framed_bind; [apply framed_openChatSession|]. intros cs.
  unfold finish_initiation.
  apply framed_bind; [apply framed_saveChatSession|]. framed_steps.
Qed.

Lemma framed_checkAndRehydrateChat_begin : framed (checkAndRehydrateChat_begin env).
Proof.
  intros s. unfold checkAndRehydrateChat_begin.
  destruct (read_chatSessionData s) as [text|].
  2:{ revert s. framed_steps. }
  revert s. change (framed
    (bind (try_catch (rehydrate_body_begin env text)
             (λ error, bind (rehydrate_handler error) (λ _, ret None)))
          (λ pending : option Pending,
             match pending with
             | Some p => ret (Some p)
             | None => bind (setState (patch_status NotInitiated)) (λ _, ret None)
             end))).
  apply framed_bind.
  - apply framed_try_catch; [|intros e; unfold rehydrate_handler; framed_steps].
    unfold rehydrate_body_begin. apply framed_bind.
    { destruct (JSON_parse env text); framed_steps. }
    intros parsedData. do 2 (apply framed_bind; [framed_steps|]; intros ?).
    match goal with |- framed (if ?b then _ else _) => destruct b end;
      [|framed_steps].
    do 6 (apply framed_bind; [framed_steps|]; intros ?).
    apply framed_bind; [apply framed_openChatSession_call|]. framed_steps.
  - intros [p|]; framed_steps.
Qed.

Lemma framed_finish_initiation input chatDetails customizationParams chatSession success :
  framed (finish_initiation env input chatDetails customizationParams chatSession success).
Proof.
  unfold finish_initiation.
  apply framed_bind; [apply framed_saveChatSession|]. framed_steps.
Qed.

(** An awaited promise that settles, whichever it is. *)
Lemma framed_resume p : framed (resume env p).
Proof.
  destruct p; cbn [resume].
  - unfold checkAndRehydrateChat_resume, rehydrate_handler.
    apply framed_bind; [|framed_steps].
    apply framed_bind; [framed_steps|]. intros returned.
    destruct returned; framed_steps.
  - unfold submitChatInitiation_resume_initiator.
    apply framed_try_catch; [|intros e; unfold initiation_catch; framed_steps].
    do 5 (apply framed_bind; [framed_steps|]; intros ?).
    apply framed_bind; [apply framed_openChatSession_call|]. framed_steps.
  - unfold submitChatInitiation_resume_open.
    apply framed_bind; [|framed_steps].
    apply framed_try_catch; [|intros e; unfold initiation_catch; framed_steps].
    apply framed_bind; [framed_steps|]. intros _. apply framed_finish_initiation.
Qed.

Lemma framed_initiateChatSession chatDetails success failure :
  framed (initiateChatSession env chatDetails success failure).
Proof. unfold initiateChatSession, submitChatInitiation_begin. framed_steps. Qed.

Lemma framed_trigger name payload success failure :
  framed (EventBus.trigger env name payload success failure).
Proof.
  unfold EventBus.trigger. apply framed_bind; [framed_steps|]. intros _.
  destruct (String.eqb name "initChat"); [apply framed_initiateChatSession | framed_steps].
Qed.

Lemma framed_initiateChat input success failure :
  framed (ChatInterface.initiateChat env input success failure).
Proof.
  unfold ChatInterface.initiateChat, ChatInterface.parse_item.
  apply framed_bind; [framed_steps|]. intros key. apply framed_bind.
  - destruct (window_get env key); framed_steps;
      match goal with |- framed (match ?o with Some _ => _ | None => _ end) =>
        destruct o end; framed_steps.
  - intros v. destruct (truthy v); apply framed_trigger.
Qed.

(** X12. No operation of the component or of the bridge reads, writes or
    removes any key of either store other than the session-record key, and
    none changes whether the component has a logger: after every
    operation, from every state and whatever its result, both stores agree
    with the earlier ones on every other key.  The operations are the
    handlers up to their return, every awaited promise that settles, and
    the methods run from their call to their end. *)
Theorem operations_keep_other_keys op s :
  other_keys_kept s (final (run_op env op s)) ∧
  logger (final (run_op env op s)) = logger s.
Proof.
  revert s. change (framed (run_op env op)). destruct op; cbn [run_op].
  - apply framed_not_awaited, framed_checkAndRehydrateChat_begin.
  - unfold onStorageChange. apply framed_bind; [framed_steps|].
    intros [| | | |k| |]; framed_steps.
    destruct (String.eqb k storage_key); framed_steps.
    apply framed_checkAndRehydrateChat_begin.
  - apply framed_bind; [apply framed_checkAndRehydrateChat | framed_steps].
  - apply framed_initiateChatSession.
  - apply framed_bind; [apply framed_submitChatInitiation | framed_steps].
  - apply framed_bind; [apply framed_saveChatSession | framed_steps].
  - unfold resetState. framed_steps.
  - apply framed_initiateChat.
  - unfold ChatInterface.message_listener.
    apply framed_bind; [framed_steps|]. intros flag.
    destruct (truthy flag); [apply framed_initiateChat | framed_steps].
  - apply framed_resume.
Qed.

End FrameOfOperations.

(** ** More on the bridge *)

Section BridgeOutcomes.
Context (env : Env).

(** X13. [ChatInterface.initiateChat] never touches the stores, and when
    it throws it has triggered nothing and changed nothing.  When it
    returns it has triggered exactly one event, with the continuations it
    was given.  Either the event is [initChat], with the merged
    configuration: the handler of the component has run, the status is
    [Initiating], the Session Initiator has been called with the merged
    configuration and the rest of the initiation is pending.  Or it is
    [rehydrateChat], with a truthy stored value spread over the merged
    configuration, to which no handler of the sources listens: the
    component is as it was.  The input has no [__proto__] property of its
    own. *)
Theorem bridge_triggers_once input success failure s :
  field input "__proto__" = None →
  let run := ChatInterface.initiateChat env input success failure s in
  let config := merged_config input in
  same_stores s (final run) ∧
  match result_of run with
  | Ok pending =>
      triggers (actions run) = 1 ∧
      ((actions run
        = EvTrigger "initChat" config success failure
          :: initiation_started env config (logger s) ∧
        final run = initiating s ∧
        pending = Some (AwaitInitiator config (customization_of config) success failure)) ∨
       (∃ v, truthy v = true ∧
             actions run
             = [EvTrigger "rehydrateChat" (spread [config; v]) success failure] ∧
             final run = s ∧ pending = None))
  | Throw _ => actions run = [] ∧ final run = s
  end.
Proof.
  intros _. cbv zeta. destruct (nullish input) eqn:Hin.
  { unfold ChatInterface.initiateChat, bind, lift.
    by destruct (get_prop_nullish input "chatPersistence" Hin) as [msg ->]. }
  assert (∀ t, triggers (EvTrigger "initChat" (merged_config input) success failure
                         :: initiation_started env (merged_config input) t) = 1)
    as Hone by (by intros [|]).
  rewrite initiateChat_run by done.
  destruct (persistence_of env input); cbv zeta;
    rewrite ?trigger_initChat by done;
    cbn [result_of final actions fst snd]; try done.
  - destruct (JSON_parse env (item_text Local s)) as [v|]; [|done].
    destruct (truthy v) eqn:Hv; rewrite ?trigger_initChat by done;
      cbn [result_of final actions fst snd].
    + split; [done|]. split; [done|]. right. by exists v.
    + split; [done|]. split; [apply Hone|]. by left.
  - destruct (JSON_parse env (item_text Session s)) as [v|]; [|done].
    destruct (truthy v) eqn:Hv; rewrite ?trigger_initChat by done;
      cbn [result_of final actions fst snd].
    + split; [done|]. split; [done|]. right. by exists v.
    + split; [done|]. split; [apply Hone|]. by left.
  - split; [done|]. split; [apply Hone|]. by left.
Qed.

Lemma obj_set_keys (fields : list (string * jsval)) k v :
  NoDup fields.*1 → NoDup (obj_set fields k v).*1.
Proof.
  induction fields as [|[k0 v0] rest IH]; cbn.
  - intros _. apply NoDup_singleton.
  - intros [Hfresh Hnd]%NoDup_cons. destruct (String.eqb_spec k0 k) as [->|Hne]; cbn.
    + by apply NoDup_cons.
    + apply NoDup_cons. split; [|by apply IH].
      intros Hin. apply Hfresh. clear IH Hnd Hfresh.
      induction rest as [|[k1 v1] rest IH]; cbn in *.
      * apply list_elem_of_singleton in Hin. congruence.
      * destruct (String.eqb_spec k1 k) as [->|Hne1]; cbn in *; [done|].
        apply elem_of_cons in Hin as [->|Hin]; [by left | right; by apply IH].
Qed.

Lemma assign_keys (fields target : list (string * jsval)) :
  NoDup target.*1 →
  NoDup (fold_left (λ acc kv, if String.eqb kv.1 "__proto__" then acc
                              else obj_set acc kv.1 kv.2) fields target).*1.
Proof.
  revert target. induction fields as [|[k v] rest IH]; intros target Hnd; cbn; [done|].
  apply IH. destruct (String.eqb k "__proto__"); [done | by apply obj_set_keys].
Qed.

(** X14. When the store the configuration names holds a record (a text
    that parses to an object), the bridge triggers [rehydrateChat], not
    [initChat]: the component and the stores are as they were.  In the
    payload every property of the stored record, one named [__proto__]
    too, overrides the caller's configuration, which overrides the client
    defaults; a [__proto__] property of the caller's configuration is not
    among the properties of the payload. *)
Theorem bridge_record_overrides_config fields record success failure s st :
  NoDup fields.*1 →
  NoDup record.*1 →
  names_store (persistence_of env (JObj fields)) st = true →
  JSON_parse env (item_text st s) = Some (JObj record) →
  ∃ payload,
    ChatInterface.initiateChat env (JObj fields) success failure s
    = (Ok None, s, [EvTrigger "rehydrateChat" payload success failure]) ∧
    ∀ k, field payload k
         = match obj_get record k with
           | Some v => Some v
           | None =>
               if String.eqb k "__proto__" then None
               else match obj_get fields k with
                    | Some v => Some v
                    | None => field ChatInterface.clientConfig k
                    end
           end.
Proof.
  intros Hnd Hrec Hst Hparse.
  exists (spread [merged_config (JObj fields); JObj record]). split.
  - rewrite initiateChat_run by done.
    destruct (persistence_of env (JObj fields)), st; try discriminate; cbv zeta;
      by rewrite Hparse.
  - intros k. rewrite <- (merged_config_field fields k Hnd).
    unfold merged_config, Object_assign, spread. cbn [fold_left field].
    unfold spread_props at 1. cbn [own_props]. rewrite spread_get by done.
    destruct (obj_get record k); [done|].
    unfold spread_props at 1. cbn [own_props]. rewrite spread_get.
    + by destruct (obj_get _ k).
    + unfold assign_props. apply assign_keys. cbn [own_props]. apply assign_keys.
      constructor.
Qed.

End BridgeOutcomes.

(** ** The further properties on a concrete page *)

(** A run for X1. *)
Lemma initiation_completes_witness :
  let run := submitChatInitiation all_up (full_config "localStorage")
               (Some "onSuccess") (Some "onFailure") (page ∅ ∅ true) in
  result_of run = Ok tt ∧
  status (state (final run)) = Initiated ∧
  localStorage (final run)
  = with_record (Json.print (session_record all_up (full_config "localStorage")
                               sample_details)) ∅ ∧
  sessionStorage (final run) = delete storage_key ∅.
Proof.
  cbv zeta.
  destruct (initiation_completes all_up (full_config "localStorage") sample_details
              (Some "onSuccess") (Some "onFailure") (page ∅ ∅ true))
    as (Hres & Hst & _ & _ & Hl & Hs & _); try reflexivity.
  - vm_compute. discriminate.
  - rewrite Hst. repeat split; assumption.
Defined.

(** Two runs for X2: the [success] continuation throws after the record
    went to the session store, and after no record was written. *)
Lemma throwing_success_fails_initiation_witness :
  let env := with_throwing_success network_error all_up in
  let run := submitChatInitiation env (full_config "sessionStorage")
               (Some "onSuccess") (Some "onFailure") (page ∅ ∅ true) in
  let bare := submitChatInitiation env plain_config
                (Some "onSuccess") (Some "onFailure") (page (stored "old") ∅ true) in
  (status (state (final run)) = InitiateFailed ∧
   chatSession (state (final run))
   = Some (fresh_session (full_config "sessionStorage") sample_details) ∧
   holds_record (sessionStorage (final run)) ∧
   ¬ holds_record (localStorage (final run))) ∧
  (status (state (final bare)) = InitiateFailed ∧
   ¬ holds_record (localStorage (final bare)) ∧
   ¬ holds_record (sessionStorage (final bare))).
Proof.
  cbv zeta. split.
  - destruct (throwing_success_fails_initiation (with_throwing_success network_error all_up)
                (full_config "sessionStorage") sample_details "onSuccess"
                (Some "onFailure") (page ∅ ∅ true) network_error)
      as (Hst & _ & Hcs & Hstores & _); try reflexivity.
    { intros H. vm_compute in H. discriminate. }
    change (persistence_of (with_throwing_success network_error all_up)
              (full_config "sessionStorage")) with WSessionStorage in Hstores.
    cbv iota in Hstores. destruct Hstores as [Hl Hs].
    split; [exact Hst|]. split; [exact Hcs|]. unfold Callback in *.
    rewrite Hl, Hs. split.
    + unfold holds_record, with_record. rewrite lookup_insert_eq. by eexists.
    + apply holds_record_delete.
  - destruct (throwing_success_fails_initiation (with_throwing_success network_error all_up)
                plain_config sample_details "onSuccess"
                (Some "onFailure") (page (stored "old") ∅ true) network_error)
      as (Hst & _ & _ & Hstores & _); try reflexivity.
    { intros H. vm_compute in H. discriminate. }
    change (persistence_of (with_throwing_success network_error all_up) plain_config)
      with WFalsy in Hstores.
    cbv iota in Hstores. destruct Hstores as [Hl Hs].
    split; [exact Hst|]. unfold Callback in *.
    rewrite Hl, Hs. split; apply holds_record_delete.
Defined.

(** A run for X3: the mode names [document]. *)
Lemma unusable_store_fails_initiation_witness :
  let env := with_global "document" all_up in
  let s := page (stored (Json.print sample_record)) ∅ true in
  let run := submitChatInitiation env (full_config "document")
               (Some "onSuccess") (Some "onFailure") s in
  status (state (final run)) = InitiateFailed ∧
  chatSession (state (final run)) = None ∧
  localStorage (final run) = delete storage_key (localStorage s).
Proof.
  cbv zeta.
  destruct (unusable_store_fails_initiation (with_global "document" all_up)
              (full_config "document") sample_details
              (Some "onSuccess") (Some "onFailure")
              (page (stored (Json.print sample_record)) ∅ true))
    as (Hst & Hcs & [Hl _] & _); try reflexivity.
  repeat split; assumption.
Defined.

(** Two runs for X4: one that completes, one that fails. *)
Lemma initiation_settles_witness :
  settled (status (state (final (submitChatInitiation all_up sample_config None None
                                   (page ∅ ∅ true))))) = true ∧
  settled (status (state (final (submitChatInitiation initiator_down sample_config
                                   None None (page ∅ ∅ false))))) = true.
Proof.
  split.
  - apply (initiation_settles all_up sample_config None None (page ∅ ∅ true)).
    reflexivity.
  - apply (initiation_settles initiator_down sample_config None None (page ∅ ∅ false)).
    reflexivity.
Defined.

(** A run for X5: the removal of the key from the local store. *)
Lemma stores_touched_after_handshake_witness :
  let run := submitChatInitiation all_up sample_config None None (page ∅ ∅ true) in
  ∃ chatDetails rest,
    initiateChat all_up sample_config = Ok chatDetails ∧
    session_open all_up (fresh_session sample_config chatDetails) = Ok tt ∧
    actions run
    = EvSetState (patch_status Initiating)
      :: handshake all_up sample_config chatDetails ++ rest ∧
    In (EvRemoveItem Local storage_key) rest.
Proof.
  cbv zeta.
  apply (stores_touched_after_handshake all_up sample_config None None (page ∅ ∅ true)
           (EvRemoveItem Local storage_key)).
  - vm_compute. do 6 right. left. reflexivity.
  - reflexivity.
Defined.

(** A run for X8: initiation, reload, rehydration. *)
Lemma persist_then_rehydrate_witness :
  let run := submitChatInitiation all_up (full_config "sessionStorage")
               (Some "onSuccess") (Some "onFailure") (page ∅ ∅ true) in
  let again := checkAndRehydrateChat all_up (reloaded (final run) true) in
  result_of again = Ok tt ∧
  status (state (final again)) = Initiated ∧
  chatSession (state (final again)) = chatSession (state (final run)) ∧
  composerConfig (state (final again)) = composerConfig (state (final run)) ∧
  language (state (final again)) = JStr "fr_FR".
Proof.
  cbv zeta.
  destruct (persist_then_rehydrate all_up (full_config "sessionStorage") sample_details
              (Some "onSuccess") (Some "onFailure") (page ∅ ∅ true) Session)
    as (Hres & Hst & _); try reflexivity.
  - intros H. vm_compute in H. discriminate.
  - rewrite Hst. repeat split; try assumption; vm_compute; reflexivity.
Defined.

(** A run for X9: the Session Initiator answers with the bare identifiers. *)
Lemma bare_result_is_not_resumed_witness :
  let run := submitChatInitiation all_up_bare (full_config "localStorage")
               (Some "onSuccess") (Some "onFailure") (page ∅ ∅ true) in
  let again := checkAndRehydrateChat all_up_bare (reloaded (final run) true) in
  status (state (final run)) = Initiated ∧
  holds_record (localStorage (final run)) ∧
  status (state (final again)) = NotInitiated ∧
  actions again = [EvSetState (patch_status NotInitiated)].
Proof.
  cbv zeta.
  destruct (bare_result_is_not_resumed all_up_bare (full_config "localStorage")
              bare_details (Some "onSuccess") (Some "onFailure") (page ∅ ∅ true) Local)
    as (_ & _ & Hl & Hagain); try reflexivity.
  - intros H. vm_compute in H. discriminate.
  - rewrite (Hagain true). cbn [store] in Hl.
    split; [vm_compute; reflexivity|]. split; [|by split].
    unfold holds_record. eexists. exact Hl.
Defined.

(** Three runs for X10: an event for the session-record key over a
    malformed text, one over a valid record, and an event for another key. *)
Lemma storage_event_handled_witness :
  let event := storage_event "chatSessionData" in
  let broken := page (stored "{not json") ∅ true in
  let valid := page (stored (Json.print sample_record)) ∅ true in
  (result_of (onStorageChange all_up event broken) = Ok None ∧
   final (onStorageChange all_up event broken)
   = final (checkAndRehydrateChat all_up broken) ∧
   status (state (final (onStorageChange all_up event broken))) = NotInitiated) ∧
  (result_of (onStorageChange all_up event valid)
   = Ok (Some (AwaitRehydrationOpen sample_record (stored_session sample_record))) ∧
   final (onStorageChange all_up event valid) = valid ∧
   status (state (final (resume all_up
                           (AwaitRehydrationOpen sample_record
                              (stored_session sample_record)) valid)))
   = Initiated) ∧
  onStorageChange all_up (storage_event "theme") broken = (Ok None, broken, []).
Proof.
  cbv zeta. split; [|split].
  - pose proof (storage_event_handled all_up (storage_event "chatSessionData")
                  (page (stored "{not json") ∅ true) eq_refl) as H.
    cbv zeta in H.
    change (match prop (storage_event "chatSessionData") "key" with
            | JStr k => String.eqb k storage_key
            | _ => false
            end) with true in H.
    change (logger (page (stored "{not json") ∅ true)) with true in H.
    cbv iota in H.
    assert (result_of (onStorageChange all_up (storage_event "chatSessionData")
                         (page (stored "{not json") ∅ true)) = Ok None) as Hr
      by (vm_compute; reflexivity).
    rewrite Hr in H. destruct H as (H1 & _ & H3). by repeat split.
  - pose proof (storage_event_handled all_up (storage_event "chatSessionData")
                  (page (stored (Json.print sample_record)) ∅ true) eq_refl) as H.
    cbv zeta in H.
    change (match prop (storage_event "chatSessionData") "key" with
            | JStr k => String.eqb k storage_key
            | _ => false
            end) with true in H.
    change (logger (page (stored (Json.print sample_record)) ∅ true)) with true in H.
    cbv iota in H.
    assert (result_of (onStorageChange all_up (storage_event "chatSessionData")
                         (page (stored (Json.print sample_record)) ∅ true))
            = Ok (Some (AwaitRehydrationOpen sample_record
                          (stored_session sample_record)))) as Hr
      by (vm_compute; reflexivity).
    rewrite Hr in H. destruct H as (text & R & _ & _ & _ & Hp & Hfinal & _ & Hlater).
    assert (R = sample_record) as -> by congruence.
    split; [exact Hr|]. split; [exact Hfinal|].
    by rewrite (Hlater (page (stored (Json.print sample_record)) ∅ true) eq_refl).
  - apply (storage_event_handled all_up (storage_event "theme")
             (page (stored "{not json") ∅ true) eq_refl).
Defined.

(** Two runs for X13: a configuration that names no store, and one that
    names the store holding a record. *)
Lemma bridge_triggers_once_witness :
  let s := page (stored (Json.print sample_record)) ∅ true in
  let fresh := ChatInterface.initiateChat all_up plain_config None None s in
  let again := ChatInterface.initiateChat all_up sample_config None None s in
  (status (state (final fresh)) = Initiating ∧
   triggers (actions fresh) = 1 ∧
   same_stores s (final fresh)) ∧
  (final again = s ∧ triggers (actions again) = 1).
Proof.
  cbv zeta. split.
  - pose proof (bridge_triggers_once all_up plain_config None None
                  (page (stored (Json.print sample_record)) ∅ true) eq_refl) as H.
    cbv zeta in H. destruct H as (Hstores & H).
    assert (result_of (ChatInterface.initiateChat all_up plain_config None None
                         (page (stored (Json.print sample_record)) ∅ true))
            = Ok (Some (AwaitInitiator (merged_config plain_config)
                          (customization_of (merged_config plain_config)) None None)))
      as Hr by (vm_compute; reflexivity).
    rewrite Hr in H. destruct H as (Hone & [(_ & Hfinal & _)|(v & _ & _ & _ & Hp)]);
      [|discriminate].
    rewrite Hfinal at 1. by repeat split.
  - pose proof (bridge_triggers_once all_up sample_config None None
                  (page (stored (Json.print sample_record)) ∅ true) eq_refl) as H.
    cbv zeta in H. destruct H as (_ & H).
    assert (result_of (ChatInterface.initiateChat all_up sample_config None None
                         (page (stored (Json.print sample_record)) ∅ true))
            = Ok None) as Hr by (vm_compute; reflexivity).
    rewrite Hr in H. destruct H as (Hone & [(_ & _ & Hp)|(v & _ & _ & Hfinal & _)]);
      [discriminate|].
    by split.
Defined.

(** A run for X14: the stored record's region overrides the caller's, and
    the caller's [__proto__] property is left out. *)
Lemma bridge_record_overrides_config_witness :
  let fields := [("region", JStr "eu-west-1"); ("chatPersistence", JStr "localStorage");
                 ("__proto__", JObj [("name", JStr "Eve")])] in
  let s := page (stored (Json.print sample_record)) ∅ true in
  ∃ payload,
    ChatInterface.initiateChat all_up (JObj fields) None None s
    = (Ok None, s, [EvTrigger "rehydrateChat" payload None None]) ∧
    field payload "region" = Some (JStr "us-east-1") ∧
    field payload "chatPersistence" = Some (JStr "localStorage") ∧
    field payload "contactFlowId" = Some (JStr "") ∧
    field payload "__proto__" = None.
Proof.
  cbv zeta.
  destruct (bridge_record_overrides_config all_up
              [("region", JStr "eu-west-1"); ("chatPersistence", JStr "localStorage");
               ("__proto__", JObj [("name", JStr "Eve")])]
              (own_fields sample_record) None None
              (page (stored (Json.print sample_record)) ∅ true) Local)
    as (payload & Hrun & Hfield).
  - apply (bool_decide_unpack _). vm_compute. reflexivity.
  - apply (bool_decide_unpack _). vm_compute. reflexivity.
  - reflexivity.
  - vm_compute. reflexivity.
  - exists payload. split; [exact Hrun|].
    rewrite (Hfield "region"), (Hfield "chatPersistence"), (Hfield "contactFlowId"),
      (Hfield "__proto__").
    repeat split; reflexivity.
Defined.
